(** * scripts/models.py: filtering OpenAPI references and generating the
      [hera.<category>.models] import surface.

    Shallow embedding of the script.  A Python [str] is modelled by the
    [string] of the bytes of its UTF-8 encoding.  Equality, concatenation,
    the substring test, splitting at [.] and the order of strings (UTF-8
    keeps the order of code points) are then the operations on bytes; the
    first character of a [str] is the first encoded code point.
    [str.upper] follows the Unicode tables of the interpreter and is a
    parameter of the model.  Exceptions are modelled by their class,
    messages are not modelled. *)

From Stdlib Require Import Ascii.
From stdpp Require Import gmap strings list sorting.

(** ** Python string operations used by the script *)

Module PyStr.

(** [s.startswith(sub)] *)
Fixpoint starts_with (sub s : string) : bool :=
  match sub, s with
  | EmptyString, _ => true
  | String a sub', String b s' => if Ascii.eqb a b then starts_with sub' s' else false
  | String _ _, EmptyString => false
  end.

(** [sub in s] on two strings: [sub] occurs in [s] at some position. *)
Fixpoint contains (sub s : string) : bool :=
  starts_with sub s ||
  match s with
  | EmptyString => false
  | String _ s' => contains sub s'
  end.

(** [s.split(sep)] for a one-character separator: never the empty list. *)
Fixpoint split (sep : ascii) (s : string) : list string :=
  match s with
  | EmptyString => [EmptyString]
  | String c s' =>
      if Ascii.eqb c sep then EmptyString :: split sep s'
      else match split sep s' with
           | seg :: segs => String c seg :: segs
           | [] => [String c EmptyString]
           end
  end.

(** [sep.join(xs)] *)
Fixpoint join (sep : string) (xs : list string) : string :=
  match xs with
  | [] => EmptyString
  | [x] => x
  | x :: xs' => x +:+ sep +:+ join sep xs'
  end.

(** [xs[-k]] for [k >= 1]; [None] stands for [IndexError]. *)
Definition index_from_end {A} (xs : list A) (k : nat) : option A :=
  rev xs !! (k - 1).

(** [xs[:-1]] *)
Definition all_but_last {A} (xs : list A) : list A :=
  take (length xs - 1) xs.

(** [c.upper()] on an ASCII character: the letters [a] to [z] go to [A] to
    [Z], every other ASCII character stays. *)
Definition upper_char (c : ascii) : ascii :=
  let n := nat_of_ascii c in
  if (97 <=? n) && (n <=? 122) then ascii_of_nat (n - 32) else c.

(** [s.upper()] on a [str] of ASCII characters. *)
Fixpoint upper_ascii (s : string) : string :=
  match s with
  | EmptyString => EmptyString
  | String c s' => String (upper_char c) (upper_ascii s')
  end.

(** What is asked of the parameter that stands for [str.upper]: on a single
    ASCII character it is [upper_char].  On other characters nothing is
    asked; the result may be longer than the character. *)
Class PyUpper (upper : string → string) : Prop := {
  upper_ascii_char : ∀ c : ascii,
    nat_of_ascii c < 128 → upper (String c EmptyString) = String (upper_char c) EmptyString
}.

(** The number of bytes of the encoded code point that starts with [c]. *)
Definition char_width (c : ascii) : nat :=
  let n := nat_of_ascii c in
  if n <? 128 then 1 else if n <? 224 then 2 else if n <? 240 then 3 else 4.

(** The first [n] bytes of a string, and what follows them. *)
Fixpoint take_bytes (n : nat) (s : string) : string :=
  match n, s with
  | S n', String c s' => String c (take_bytes n' s')
  | _, _ => EmptyString
  end.

Fixpoint drop_bytes (n : nat) (s : string) : string :=
  match n, s with
  | S n', String _ s' => drop_bytes n' s'
  | _, _ => s
  end.

(** [s[0]] and [s[1:]]: the first character of a [str] that is not empty,
    and the rest. *)
Definition first_char (s : string) : string :=
  match s with
  | EmptyString => EmptyString
  | String c _ => take_bytes (char_width c) s
  end.

Definition after_first_char (s : string) : string :=
  match s with
  | EmptyString => EmptyString
  | String c _ => drop_bytes (char_width c) s
  end.

(** [s[0].upper() + s[1:]] where [s] is not empty. *)
Definition capitalize (upper : string → string) (s : string) : string :=
  upper (first_char s) +:+ after_first_char s.

(** The substring relation that [contains] decides. *)
Definition substring_of (sub s : string) : Prop :=
  ∃ pre post, s = pre +:+ sub +:+ post.

End PyStr.

(** ** Reference filtering *)

Definition inclusions : list string := ["events"; "event"; "eventsource"; "sensor"].

Definition exclusions : list string :=
  [ "io.k8s.api.core.v1.Event";
    "io.k8s.api.core.v1.EventSeries";
    "io.k8s.api.core.v1.EventSource" ].

(** One iteration of the loop [for inclusion in inclusions] over the two
    loop-carried variables [filtered] and [events]. *)
Definition filter_step (refs : list string) (models_type : string)
    (st : list string * list string) (inclusion : string)
    : list string * list string :=
  let '(filtered, events) := st in
  if String.eqb models_type "events" then
    (filtered, events ++ List.filter (λ ref, PyStr.contains inclusion ref) refs)
  else
    (List.filter (λ r, negb (PyStr.contains inclusion r)
                       && negb (bool_decide (r ∈ exclusions))) filtered,
     events).

(** [list(set(xs))] enumerates the distinct elements of [xs] in an order
    that depends on the interpreter run (string hashing is randomised).  The
    enumeration is a parameter [list_set] of the model, constrained by
    [ListSet]. *)
Class ListSet (list_set : list string → list string) : Prop := {
  list_set_NoDup : ∀ xs, NoDup (list_set xs);
  list_set_elem_of : ∀ xs x, x ∈ list_set xs ↔ x ∈ xs
}.

Definition filter_refs_on_models_type (list_set : list string → list string)
    (refs : list string) (models_type : string) : list string :=
  let '(filtered, events) :=
    fold_left (filter_step refs models_type) inclusions (refs, []) in
  if String.eqb models_type "events" then list_set events
  else list_set filtered.

(** A key carries one of the four markers. *)
Definition has_marker (K : string) : Prop :=
  ∃ m, m ∈ inclusions ∧ PyStr.substring_of m K.


(** ** Import descriptors *)

Record ImportReference := mkImportReference {
  path : string;
  name : string;
  alias : option string
}.

Global Instance ImportReference_eq_dec : EqDecision ImportReference.
Proof. solve_decision. Defined.

(** The line feed and the double quote character. *)
Definition nl : string := String "010"%char EmptyString.
Definition dq : string := String "034"%char EmptyString.

(** Truth value of an [Optional[str]]: [None] and the empty string are false. *)
Definition truthy (a : option string) : bool :=
  match a with
  | Some (String _ _) => true
  | _ => false
  end.

Definition rendered_import (self : ImportReference) : string :=
  let name :=
    match alias self with
    | Some a => if truthy (alias self) then name self +:+ " as " +:+ a else name self
    | None => name self
    end in
  "from " +:+ path self +:+ " import " +:+ name +:+ nl.

Definition aliased_name (self : ImportReference) : string :=
  match alias self with
  | Some a => if truthy (alias self) then a else name self
  | None => name self
  end.

(** ** Exceptions and results *)

(** [InvalidRef] is not a Python exception: it is what the model answers when
    asked for an object the heap does not hold, which Python never is. *)
Inductive exn :=
  | AssertionError | ValueError | IndexError | KeyError | TypeError
  | AttributeError | InvalidRef.

Inductive outcome (A : Type) :=
  | Ok (a : A)
  | Raise (e : exn).
Arguments Ok {A} a.
Arguments Raise {A} e.

Global Instance outcome_ret : MRet outcome := λ A a, Ok a.
Global Instance outcome_bind : MBind outcome := λ A B f m,
  match m with
  | Ok a => f a
  | Raise e => Raise e
  end.

Definition from_option {A} (e : exn) (o : option A) : outcome A :=
  match o with
  | Some a => Ok a
  | None => Raise e
  end.

(** ** Import assembly *)

Definition assemble_root_path_from_models_type (m_type : string) : string :=
  "hera." +:+ m_type +:+ ".models".

(** The body of the loop [for ref in refs] of [get_import_paths_from_refs]:
    the descriptor appended for one reference. *)
Definition import_reference_of (upper : string → string) (root_path ref : string)
    : outcome ImportReference :=
  let split := PyStr.split "."%char ref in
  let path := PyStr.join "." (PyStr.all_but_last split) in
  obj ← from_option IndexError (PyStr.index_from_end split 1);
  alias ← (if bool_decide (obj ∈ ["HTTPHeader"; "LogEntry"]) then
             seg ← from_option IndexError (PyStr.index_from_end split 2);
             let raw_alias := seg +:+ obj in
             match raw_alias with
             | EmptyString => Raise IndexError
             | String _ _ =>
                 Ok (Some (upper (PyStr.first_char raw_alias)
                           +:+ PyStr.after_first_char raw_alias))
             end
           else Ok None);
  Ok (mkImportReference (root_path +:+ "." +:+ path) obj alias).

Fixpoint get_import_paths_loop (upper : string → string) (refs : list string)
    (root_path : string) (result : list ImportReference)
    : outcome (list ImportReference) :=
  match refs with
  | [] => Ok result
  | ref :: refs' =>
      r ← import_reference_of upper root_path ref;
      get_import_paths_loop upper refs' root_path (result ++ [r])
  end.

Definition get_import_paths_from_refs (upper : string → string)
    (refs : list string) (root_path : string) : outcome (list ImportReference) :=
  get_import_paths_loop upper refs root_path [].

(** ** Ordering of descriptors: [@dataclass(order=True)] and [sorted] *)

(** [(a.path, a.name, a.alias) < (b.path, b.name, b.alias)]: the first
    component that differs decides; comparing [None] with a string raises
    [TypeError], here [None]. *)
Definition tuple_lt (a b : ImportReference) : option bool :=
  if negb (String.eqb (path a) (path b)) then Some (String.ltb (path a) (path b))
  else if negb (String.eqb (name a) (name b)) then Some (String.ltb (name a) (name b))
  else match alias a, alias b with
       | None, None => Some false
       | Some x, Some y => Some (String.ltb x y)
       | _, _ => None
       end.

(** [sorted] is a stable comparison sort that only asks [<]; it is modelled
    by stable insertion, an exception of the comparison ending the sort.
    Which pairs a sort compares depends on the algorithm, its outcome does
    not: [sorted_total] and [sorted_Raise] below show that the model raises
    exactly when two descriptors of the list cannot be compared, and no
    comparison sort can order such a list without comparing the two. *)
Fixpoint insert_sorted (x : ImportReference) (s : list ImportReference)
    : outcome (list ImportReference) :=
  match s with
  | [] => Ok [x]
  | h :: t =>
      b ← from_option TypeError (tuple_lt h x);
      if b : bool then t' ← insert_sorted x t; Ok (h :: t')
      else Ok (x :: h :: t)
  end.

Fixpoint sorted (l : list ImportReference) : outcome (list ImportReference) :=
  match l with
  | [] => Ok []
  | x :: t => s ← sorted t; insert_sorted x s
  end.

(** [sorted] on a list of [str]: the order is total, any sort gives the
    same list. *)
Definition sorted_str (l : list string) : list string := merge_sort String.le l.

(** ** The world the script runs in *)

(** A JSON value as far as the script looks at it: an object is given by
    its keys in document order (the values under the keys are never used),
    anything else is [JOther]. *)
Inductive json :=
  | JObject (keys : list string)
  | JOther.

(** A [requests] response; [json_body] is [None] when the body is not JSON.
    A body that is JSON is taken to be an object, as the annotation
    [-> dict] of [fetch_openapi_spec] says, given by its entries in document
    order, keys distinct. *)
Record Response := mkResponse {
  ok : bool;
  status_code : Z;
  json_body : option (list (string * json))
}.

Definition loc := nat.

Record World := mkWorld {
  remote : string → Response;             (* what each URL answers *)
  requested : list string;                (* URLs retrieved so far *)
  files : gmap string string;             (* file contents by path *)
  heap : gmap loc (list ImportReference)  (* list objects by reference *)
}.

Definition set_requested (r : list string) (w : World) : World :=
  mkWorld (remote w) r (files w) (heap w).
Definition set_files (f : gmap string string) (w : World) : World :=
  mkWorld (remote w) (requested w) f (heap w).
Definition set_heap (h : gmap loc (list ImportReference)) (w : World) : World :=
  mkWorld (remote w) (requested w) (files w) h.

(** Computations that change the world and may raise. *)
Definition M (A : Type) : Type := World → World * outcome A.

Global Instance M_ret : MRet M := λ A a w, (w, Ok a).
Global Instance M_bind : MBind M := λ A B f m w,
  match m w with
  | (w', Ok a) => f a w'
  | (w', Raise e) => (w', Raise e)
  end.

Definition lift {A} (r : outcome A) : M A := λ w, (w, r).

Fixpoint for_each {A} (xs : list A) (body : A → M unit) : M unit :=
  match xs with
  | [] => mret tt
  | x :: xs' => body x ;; for_each xs' body
  end.

(** [xs.append(x)] on the list object at [l]. *)
Definition list_append (l : loc) (x : ImportReference) : M unit := λ w,
  match heap w !! l with
  | Some xs => (set_heap (<[l := xs ++ [x]]> (heap w)) w, Ok tt)
  | None => (w, Raise InvalidRef)
  end.

(** Reading the list object at [l]. *)
Definition list_read (l : loc) : M (list ImportReference) := λ w,
  (w, from_option InvalidRef (heap w !! l)).

(** A new list object. *)
Definition list_new (xs : list ImportReference) : M loc := λ w,
  let l := fresh (dom (heap w)) in
  (set_heap (<[l := xs]> (heap w)) w, Ok l).

(** [open(p, "w+")]: the file is created or truncated. *)
Definition file_open_w (p : string) : M unit := λ w,
  (set_files (<[p := EmptyString]> (files w)) w, Ok tt).

(** [f.write(s)] on the file opened at [p]. *)
Definition file_write (p s : string) : M unit := λ w,
  (set_files (alter (λ c, c +:+ s) p (files w)) w, Ok tt).

(** ** Command line *)

Definition model_types : list string := ["workflows"; "events"].

Definition get_openapi_spec_url (argv : list string) : outcome string :=
  if negb (length argv =? 3) then Raise AssertionError
  else from_option IndexError (argv !! 1).

Definition get_models_type (argv : list string) : outcome string :=
  if negb (length argv =? 3) then Raise AssertionError
  else
    arg ← from_option IndexError (argv !! 2);
    if negb (bool_decide (arg ∈ model_types)) then Raise AssertionError
    else Ok arg.

(** ** Retrieval and extraction *)

Definition fetch_openapi_spec (url : string) : M (list (string * json)) := λ w,
  let w' := set_requested (requested w ++ [url]) w in
  let response := remote w url in
  if ok response then (w', from_option ValueError (json_body response))
  else (w', Raise ValueError).

Fixpoint dict_get (d : list (string * json)) (k : string) : option json :=
  match d with
  | [] => None
  | (k', v) :: d' => if String.eqb k' k then Some v else dict_get d' k
  end.

Definition k_definitions : string := "definitions".

Definition get_openapi_definitions (spec : list (string * json)) : outcome json :=
  if negb (bool_decide (k_definitions ∈ map fst spec)) then Raise AssertionError
  else from_option KeyError (dict_get spec k_definitions).

Definition get_refs_from_openapi_definitions (defs : json) : outcome (list string) :=
  match defs with
  | JObject keys => Ok keys
  | JOther => Raise AttributeError
  end.

(** ** Generation *)

(** [Path(__name__).parent.parent / "src" / "hera" / models_type / "models" /
    "__init__.py"], where [Path(__name__).parent.parent] is the current
    directory and [models_type] is a plain directory name.  The directory is
    taken to exist: [open] does not fail. *)
Definition target_path (models_type : string) : string :=
  "src/hera/" +:+ models_type +:+ "/models/__init__.py".

Definition header (models_type openapi_spec_url : string) : string :=
  dq +:+ dq +:+ dq +:+ "[DO NOT EDIT MANUALLY] Auto-generated model classes." +:+ nl +:+ nl
  +:+ "Auto-generated by Hera via `make " +:+ models_type +:+ "-models`." +:+ nl
  +:+ "OpenAPI spec URL: " +:+ openapi_spec_url +:+ nl
  +:+ dq +:+ dq +:+ dq +:+ nl +:+ nl.

Definition events : list string :=
  ["Item"; "Event"; "EventResponse"; "GetUserInfoResponse"; "InfoResponse"; "Version"].

Definition enums : list string :=
  ["ImagePullPolicy"; "TerminationMessagePolicy"; "Protocol"; "Scheme"; "Operator";
   "Type"; "Phase"; "TypeModel"; "Effect"; "OperatorModel"].

Definition write_imports (references : loc) (models_type openapi_spec_url : string)
    : M unit :=
  let path := target_path models_type in
  file_open_w path ;;
  file_write path (header models_type openapi_spec_url) ;;
  (if String.eqb models_type "events" then
     for_each events (λ event,
       list_append references
         (mkImportReference "hera.events.models.io.argoproj.workflow.v1alpha1" event None))
   else mret tt) ;;
  for_each enums (λ enum,
    list_append references
      (mkImportReference ("hera." +:+ models_type +:+ ".models.io.k8s.api.core.v1") enum None)) ;;
  refs ← list_read references;
  sorted_refs ← lift (sorted refs);
  for_each sorted_refs (λ ref, file_write path (rendered_import ref)) ;;
  refs ← list_read references;
  let models_strs := sorted_str (map (λ ref, dq +:+ aliased_name ref +:+ dq) refs) in
  let models_str := PyStr.join ", " models_strs in
  file_write path (nl +:+ "__all__ = [" +:+ models_str +:+ "]" +:+ nl).

(** ** The script *)

(** [ensure_init] walks the package directories and creates missing
    [__init__.py] files; it is kept abstract, as a computation on the world.
    [upper] stands for [str.upper]. *)
Definition main (upper : string → string) (list_set : list string → list string)
    (ensure_init : M unit) (argv : list string) : M unit :=
  models_type ← lift (get_models_type argv);
  openapi_spec_url ← lift (get_openapi_spec_url argv);
  openapi_spec ← fetch_openapi_spec openapi_spec_url;
  definitions ← lift (get_openapi_definitions openapi_spec);
  refs ← lift (get_refs_from_openapi_definitions definitions);
  let filtered_refs := filter_refs_on_models_type list_set refs models_type in
  let root_path := assemble_root_path_from_models_type models_type in
  imports ← lift (get_import_paths_from_refs upper filtered_refs root_path);
  imports ← list_new imports;
  write_imports imports models_type openapi_spec_url ;;
  ensure_init.

(** ** Notions used to state what generation does *)

(** Comparison functions that describe a strict total order. *)
Class CompareOK {A} (cmp : A → A → comparison) : Prop := {
  cmp_eq : ∀ x y, cmp x y = Eq ↔ x = y;
  cmp_antisym : ∀ x y, cmp y x = CompOpp (cmp x y);
  cmp_trans : ∀ x y z, cmp x y = Lt → cmp y z = Lt → cmp x z = Lt
}.

Definition lex (c1 c2 : comparison) : comparison :=
  match c1 with
  | Eq => c2
  | _ => c1
  end.

Definition cmp_pair {A B} (cmpA : A → A → comparison) (cmpB : B → B → comparison)
    (p q : A * B) : comparison :=
  lex (cmpA p.1 q.1) (cmpB p.2 q.2).

Definition alias_compare (a b : option string) : comparison :=
  match a, b with
  | None, None => Eq
  | None, Some _ => Lt
  | Some _, None => Gt
  | Some x, Some y => String.compare x y
  end.

Definition key2 (r : ImportReference) : string * string := (path r, name r).
Definition key3 (r : ImportReference) : string * string * option string :=
  (key2 r, alias r).

Definition cmp2 : string * string → string * string → comparison :=
  cmp_pair String.compare String.compare.

(** The order of the tuples [(path, name, alias)], made total by placing
    [None] before every string. *)
Definition ref_compare (a b : ImportReference) : comparison :=
  cmp_pair cmp2 alias_compare (key3 a) (key3 b).

Definition ref_le (a b : ImportReference) : Prop := ref_compare a b ≠ Gt.

(** Two descriptors can be compared by [<] unless they have the same path
    and name and exactly one of them has an alias. *)
Definition comparable (a b : ImportReference) : Prop :=
  key2 a = key2 b → (alias a = None ↔ alias b = None).

Definition all_comparable (l : list ImportReference) : Prop :=
  ∀ a b, a ∈ l → b ∈ l → comparable a b.

(** The descriptors [write_imports] appends for a category. *)
Definition fixed_references (models_type : string) : list ImportReference :=
  (if String.eqb models_type "events" then
     map (λ event,
       mkImportReference "hera.events.models.io.argoproj.workflow.v1alpha1" event None)
       events
   else [])
  ++ map (λ enum,
       mkImportReference ("hera." +:+ models_type +:+ ".models.io.k8s.api.core.v1")
         enum None) enums.

Definition concat_str (xs : list string) : string :=
  foldr String.append EmptyString xs.

(** What follows the header in a generated file: the import lines of the
    descriptors [emitted], in that order, and the export list of [refs]. *)
Definition body (refs emitted : list ImportReference) : string :=
  concat_str (map rendered_import emitted)
  +:+ nl +:+ "__all__ = ["
  +:+ PyStr.join ", " (sorted_str (map (λ ref, dq +:+ aliased_name ref +:+ dq) refs))
  +:+ "]" +:+ nl.

(** What import assembly guarantees about a descriptor: it has an alias
    exactly when its name is one of the two colliding names, and an alias is
    never the empty string. *)
Definition assembled (d : ImportReference) : Prop :=
  (alias d = None ↔ name d ∉ ["HTTPHeader"; "LogEntry"])
  ∧ (∀ a, alias d = Some a → a ≠ EmptyString).

(** The name a descriptor is exported under: its alias if it has one. *)
Definition export_name (d : ImportReference) : string :=
  match alias d with
  | Some a => a
  | None => name d
  end.

(** A world with one list object, at reference [0], and no files. *)
Definition world_with_list (refs : list ImportReference) : World :=
  mkWorld (λ _, mkResponse false 404 None) [] ∅ {[ 0 := refs ]}.

(** ** Package markers *)

(** [os.walk(top)] is given by [walk top]: the directories below [top], each
    with the names of the files it holds, as listed when [ensure_init]
    starts (the third component of what [os.walk] yields; the second, the
    sub-directories, is not looked at).  The files [ensure_init] creates are
    put into a directory after it has been listed, and sit in no directory
    that is listed later.  [for models_type in model_types] runs over a set,
    in the order [list_set] gives. *)
Definition ensure_init (list_set : list string → list string)
    (walk : string → list (string * list string)) : M unit :=
  for_each (list_set model_types) (λ models_type,
    for_each (walk ("src/hera/" +:+ models_type +:+ "/models")) (λ entry,
      let '(root, files) := entry in
      if PyStr.contains "__pycache__" root then mret tt
      else if negb (bool_decide ("__init__.py" ∈ files)) then
        file_open_w (root +:+ "/__init__.py") ;;
        file_write (root +:+ "/__init__.py") EmptyString
      else mret tt)).

(** The directories [ensure_init] puts a marker file into: listed below the
    models directory of a category, not a cache directory, and listed
    without an [__init__.py]. *)
Definition needs_marker (walk : string → list (string * list string))
    (root : string) : Prop :=
  ∃ models_type files,
    models_type ∈ model_types
    ∧ (root, files) ∈ walk ("src/hera/" +:+ models_type +:+ "/models")
    ∧ ¬ PyStr.substring_of "__pycache__" root
    ∧ "__init__.py" ∉ files.

(** The marker files [ensure_init] writes, in the order it writes them. *)
Definition marker_paths (list_set : list string → list string)
    (walk : string → list (string * list string)) : list string :=
  flat_map (λ models_type,
    flat_map (λ entry : string * list string,
      if PyStr.contains "__pycache__" entry.1 then []
      else if negb (bool_decide ("__init__.py" ∈ entry.2)) then
        [entry.1 +:+ "/__init__.py"]
      else [])
      (walk ("src/hera/" +:+ models_type +:+ "/models")))
    (list_set model_types).

(** Creating empty files, or emptying them, at the given paths. *)
Definition touch (ps : list string) (m : gmap string string) : gmap string string :=
  fold_left (λ m p, <[p := EmptyString]> m) ps m.

(** A directory listing for the examples: the [workflows] models directory
    with its marker file, a sub-directory without one, and a cache
    directory. *)
Definition example_walk (top : string) : list (string * list string) :=
  if String.eqb top "src/hera/workflows/models" then
    [("src/hera/workflows/models", ["__init__.py"; "py.typed"]);
     ("src/hera/workflows/models/io", []);
     ("src/hera/workflows/models/__pycache__", [])]
  else [].

Definition example_files : gmap string string :=
  {[ "src/hera/workflows/models/__init__.py" := "generated";
     "src/hera/workflows/models/py.typed" := EmptyString ]}.

(** ** Facts about the string operations *)

Lemma append_nil_l (t : string) : EmptyString +:+ t = t.
Proof. reflexivity. Qed.

Lemma append_cons (a : ascii) (s t : string) : String a s +:+ t = String a (s +:+ t).
Proof. reflexivity. Qed.

Lemma append_nil_r (s : string) : s +:+ EmptyString = s.
Proof. induction s as [|a s IH]; [done|]. by rewrite append_cons, IH. Qed.

Lemma append_assoc (s t u : string) : (s +:+ t) +:+ u = s +:+ t +:+ u.
Proof. induction s as [|a s IH]; [done|]. by rewrite !append_cons, IH. Qed.

Lemma starts_with_spec sub s :
  PyStr.starts_with sub s = true ↔ ∃ post, s = sub +:+ post.
Proof.
  revert s; induction sub as [|a sub IH]; intros s; simpl.
  - split; [intros _; by exists s | done].
  - destruct s as [|b s].
    + split; [done | intros [post Hp]; rewrite append_cons in Hp; discriminate].
    + destruct (Ascii.eqb_spec a b) as [->|Hne].
      * rewrite IH. split; intros [post Hp]; exists post;
          rewrite append_cons in *; congruence.
      * split; [done | intros [post Hp]; rewrite append_cons in Hp; congruence].
Qed.

Lemma contains_spec sub s :
  PyStr.contains sub s = true ↔ PyStr.substring_of sub s.
Proof.
  unfold PyStr.substring_of.
  induction s as [|c s IH]; simpl.
  - rewrite orb_false_r, starts_with_spec. split.
    + intros [post Hp]. by exists EmptyString, post.
    + intros ([|? pre] & post & Hp); [by exists post | discriminate].
  - rewrite orb_true_iff, starts_with_spec, IH. split.
    + intros [[post Hp]|(pre & post & Hp)].
      * by exists EmptyString, post.
      * exists (String c pre), post. by rewrite append_cons, Hp.
    + intros ([|d pre] & post & Hp).
      * left. by exists post.
      * right. exists pre, post. rewrite append_cons in Hp. congruence.
Qed.

Lemma has_marker_existsb K :
  has_marker K ↔ existsb (λ m, PyStr.contains m K) inclusions = true.
Proof.
  unfold has_marker. rewrite existsb_exists. split.
  - intros (m & Hm & Hs). exists m. by rewrite contains_spec, <- list_elem_of_In.
  - intros (m & Hm & Hs). exists m. by rewrite <- contains_spec, list_elem_of_In.
Qed.

(** ** What the filter loop computes *)

Lemma filter_loop_events refs ms filtered evs :
  fold_left (filter_step refs "events") ms (filtered, evs)
  = (filtered,
     evs ++ concat (map (λ m, List.filter (λ ref, PyStr.contains m ref) refs) ms)).
Proof.
  revert evs; induction ms as [|m ms IH]; intros evs; simpl.
  - by rewrite app_nil_r.
  - rewrite IH. by rewrite <- app_assoc.
Qed.

Lemma filter_loop_workflows refs ms filtered evs :
  fold_left (filter_step refs "workflows") ms (filtered, evs)
  = (fold_left (λ acc m, List.filter (λ r, negb (PyStr.contains m r)
                       && negb (bool_decide (r ∈ exclusions))) acc) ms filtered,
     evs).
Proof.
  revert filtered; induction ms as [|m ms IH]; intros filtered; simpl; [done|].
  by rewrite IH.
Qed.

Lemma filter_loop_elem_of (P : string → string → bool) ms (l : list string) K :
  K ∈ fold_left (λ acc m, List.filter (P m) acc) ms l
  ↔ K ∈ l ∧ ∀ m, m ∈ ms → P m K = true.
Proof.
  revert l; induction ms as [|m ms IH]; intros l; simpl.
  - split; [intros HK; split; [done | by intros m ?%elem_of_nil] | by intros [? _]].
  - rewrite IH, list_elem_of_In, filter_In, <- list_elem_of_In. split.
    + intros [[HK Hm] Hms]. split; [done|].
      intros m' [->|?]%elem_of_cons; auto.
    + intros [HK Hall]. split; [split|]; auto using list_elem_of_here.
      intros m' ?. apply Hall. by apply list_elem_of_further.
Qed.

Lemma events_elem_of refs ms K :
  K ∈ concat (map (λ m, List.filter (λ ref, PyStr.contains m ref) refs) ms)
  ↔ K ∈ refs ∧ existsb (λ m, PyStr.contains m K) ms = true.
Proof.
  rewrite list_elem_of_In, in_concat, existsb_exists. split.
  - intros (l & (m & <- & Hm)%in_map_iff & [HK Hc]%filter_In).
    split; [by apply list_elem_of_In | by exists m].
  - intros [HK (m & Hm & Hc)].
    exists (List.filter (λ ref, PyStr.contains m ref) refs). split.
    + apply in_map_iff. by exists m.
    + apply filter_In. split; [by apply list_elem_of_In | done].
Qed.

Lemma filter_events_unfold list_set refs :
  filter_refs_on_models_type list_set refs "events"
  = list_set (concat (map (λ m, List.filter (λ ref, PyStr.contains m ref) refs)
                          inclusions)).
Proof. unfold filter_refs_on_models_type. by rewrite filter_loop_events. Qed.

Lemma filter_workflows_unfold list_set refs :
  filter_refs_on_models_type list_set refs "workflows"
  = list_set (fold_left (λ acc m, List.filter (λ r, negb (PyStr.contains m r)
                       && negb (bool_decide (r ∈ exclusions))) acc) inclusions refs).
Proof. unfold filter_refs_on_models_type. by rewrite filter_loop_workflows. Qed.

(** Membership in the two filtered lists. *)
Lemma filter_events_elem_of list_set `{!ListSet list_set} refs K :
  K ∈ filter_refs_on_models_type list_set refs "events" ↔ K ∈ refs ∧ has_marker K.
Proof.
  rewrite filter_events_unfold, list_set_elem_of, events_elem_of.
  by rewrite has_marker_existsb.
Qed.

Lemma filter_workflows_elem_of list_set `{!ListSet list_set} refs K :
  K ∈ filter_refs_on_models_type list_set refs "workflows"
  ↔ K ∈ refs ∧ ¬ has_marker K ∧ K ∉ exclusions.
Proof.
  rewrite filter_workflows_unfold, list_set_elem_of.
  rewrite (filter_loop_elem_of
    (λ m r, negb (PyStr.contains m r) && negb (bool_decide (r ∈ exclusions)))).
  rewrite has_marker_existsb. split.
  - intros [HK Hall]. split; [done|]. split.
    + intros (m & Hm & Hc)%existsb_exists.
      apply list_elem_of_In, Hall in Hm. rewrite Hc in Hm. discriminate.
    + intros Hex. specialize (Hall "events" (list_elem_of_here _ _)).
      apply andb_true_iff in Hall as [_ Hall].
      apply negb_true_iff, bool_decide_eq_false in Hall. done.
  - intros (HK & Hnm & Hnex). split; [done|]. intros m Hm.
    apply andb_true_iff. split.
    + apply negb_true_iff. destruct (PyStr.contains m K) eqn:Hc; [|done].
      exfalso. apply Hnm, existsb_exists. exists m. by rewrite <- list_elem_of_In.
    + by apply negb_true_iff, bool_decide_eq_false.
Qed.

Lemma exclusions_no_marker K : K ∈ exclusions → ¬ has_marker K.
Proof.
  rewrite has_marker_existsb.
  unfold exclusions. rewrite !elem_of_cons, elem_of_nil.
  intros [->|[->|[->|[]]]]; vm_compute; discriminate.
Qed.

Global Instance has_marker_dec K : Decision (has_marker K).
Proof.
  refine (cast_if (decide (existsb (λ m, PyStr.contains m K) inclusions = true)));
    by rewrite has_marker_existsb.
Defined.

(** [remove_dups] is one possible enumeration order. *)
Lemma remove_dups_ListSet : ListSet (remove_dups (A:=string)).
Proof.
  split.
  - intros xs. apply NoDup_remove_dups.
  - intros xs x. apply elem_of_remove_dups.
Qed.

(** Reversing it is another one. *)
Lemma rev_remove_dups_ListSet : ListSet (λ xs, reverse (remove_dups xs)).
Proof.
  split.
  - intros xs. rewrite reverse_Permutation. apply NoDup_remove_dups.
  - intros xs x. rewrite elem_of_reverse. apply elem_of_remove_dups.
Qed.

(** ** Reference filtering: the claims *)

(** C1. Filtering with category [events] returns a duplicate-free list that
    holds a key [K] exactly when [K] is one of the given keys and contains
    one of the substrings [events], [event], [eventsource], [sensor]. *)
Theorem filter_events_spec list_set `{!ListSet list_set} (refs : list string) :
  NoDup (filter_refs_on_models_type list_set refs "events") ∧
  ∀ K, K ∈ filter_refs_on_models_type list_set refs "events"
       ↔ K ∈ refs ∧ ∃ m, m ∈ ["events"; "event"; "eventsource"; "sensor"]
                          ∧ PyStr.substring_of m K.
Proof.
  split.
  - unfold filter_refs_on_models_type.
    destruct (fold_left _ _ _) as [filtered evs]. simpl. apply list_set_NoDup.
  - intros K. apply filter_events_elem_of; assumption.
Qed.

Lemma filter_events_spec_witness :
  let refs := ["io.argoproj.events.v1.Event"; "io.k8s.api.core.v1.Pod";
               "io.argoproj.events.v1.Event"] in
  NoDup (filter_refs_on_models_type remove_dups refs "events") ∧
  ∀ K, K ∈ filter_refs_on_models_type remove_dups refs "events"
       ↔ K ∈ refs ∧ ∃ m, m ∈ ["events"; "event"; "eventsource"; "sensor"]
                          ∧ PyStr.substring_of m K.
Proof.
  intros refs.
  exact (@filter_events_spec remove_dups remove_dups_ListSet refs).
Defined.

(** C2. Filtering with category [workflows] returns a duplicate-free list of
    given keys, and a given key [K] is left out exactly when it contains one
    of the four markers or is one of the three fixed core-v1 keys; every
    other given key is in the result. *)
Theorem filter_workflows_spec list_set `{!ListSet list_set} (refs : list string) :
  let result := filter_refs_on_models_type list_set refs "workflows" in
  NoDup result ∧
  (∀ K, K ∈ result → K ∈ refs) ∧
  ∀ K, K ∈ refs →
    let excluded :=
      (∃ m, m ∈ ["events"; "event"; "eventsource"; "sensor"] ∧ PyStr.substring_of m K)
      ∨ K ∈ [ "io.k8s.api.core.v1.Event"; "io.k8s.api.core.v1.EventSeries";
              "io.k8s.api.core.v1.EventSource" ] in
    (K ∉ result ↔ excluded) ∧ (K ∈ result ↔ ¬ excluded).
Proof.
  intros result. split; [|split].
  - unfold result, filter_refs_on_models_type.
    destruct (fold_left _ _ _) as [filtered evs]. simpl. apply list_set_NoDup.
  - intros K HK. by apply filter_workflows_elem_of in HK as [? _].
  - intros K HK excluded. unfold result.
    rewrite filter_workflows_elem_of by assumption.
    change excluded with (has_marker K ∨ K ∈ exclusions).
    destruct (decide (has_marker K)), (decide (K ∈ exclusions)); tauto.
Qed.

Lemma filter_workflows_spec_witness :
  let refs := ["io.k8s.api.core.v1.Event"; "io.k8s.api.core.v1.Pod"] in
  let result := filter_refs_on_models_type remove_dups refs "workflows" in
  result = ["io.k8s.api.core.v1.Pod"] ∧
  NoDup result ∧
  (∀ K, K ∈ result → K ∈ refs) ∧
  ∀ K, K ∈ refs →
    let excluded :=
      (∃ m, m ∈ ["events"; "event"; "eventsource"; "sensor"] ∧ PyStr.substring_of m K)
      ∨ K ∈ [ "io.k8s.api.core.v1.Event"; "io.k8s.api.core.v1.EventSeries";
              "io.k8s.api.core.v1.EventSource" ] in
    (K ∉ result ↔ excluded) ∧ (K ∈ result ↔ ¬ excluded).
Proof.
  intros refs result. split; [reflexivity|].
  exact (@filter_workflows_spec remove_dups remove_dups_ListSet refs).
Defined.

(** C3. Filtering is idempotent: filtering the result of a first filtering
    again, with the same category, gives a list with the same keys. *)
Theorem filter_idempotent list_set1 list_set2
    `{!ListSet list_set1} `{!ListSet list_set2}
    (refs : list string) (models_type : string) :
  models_type = "workflows" ∨ models_type = "events" →
  ∀ K, K ∈ filter_refs_on_models_type list_set2
             (filter_refs_on_models_type list_set1 refs models_type) models_type
       ↔ K ∈ filter_refs_on_models_type list_set1 refs models_type.
Proof.
  intros [->| ->] K.
  - rewrite !filter_workflows_elem_of by assumption. tauto.
  - rewrite !filter_events_elem_of by assumption. tauto.
Qed.

Lemma filter_idempotent_witness :
  "x.sensor" ∈ filter_refs_on_models_type (λ xs, reverse (remove_dups xs))
                 (filter_refs_on_models_type remove_dups
                    ["a.events.B"; "io.k8s.api.core.v1.Pod"; "x.sensor"] "events") "events"
  ↔ "x.sensor" ∈ filter_refs_on_models_type remove_dups
                   ["a.events.B"; "io.k8s.api.core.v1.Pod"; "x.sensor"] "events".
Proof.
  exact (@filter_idempotent remove_dups (λ xs, reverse (remove_dups xs))
           remove_dups_ListSet rev_remove_dups_ListSet
           ["a.events.B"; "io.k8s.api.core.v1.Pod"; "x.sensor"] "events"
           (or_intror eq_refl) "x.sensor").
Defined.

(** C9. The [events] result and the [workflows] result of one key list have
    no key in common, and together they hold exactly the given keys other
    than the three fixed core-v1 keys, which are in neither. *)
Theorem filter_partition list_set1 list_set2
    `{!ListSet list_set1} `{!ListSet list_set2} (refs : list string) :
  let evs := filter_refs_on_models_type list_set1 refs "events" in
  let wfs := filter_refs_on_models_type list_set2 refs "workflows" in
  (∀ K, ¬ (K ∈ evs ∧ K ∈ wfs)) ∧
  (∀ K, (K ∈ evs ∨ K ∈ wfs) ↔
        K ∈ refs ∧ K ∉ [ "io.k8s.api.core.v1.Event"; "io.k8s.api.core.v1.EventSeries";
                         "io.k8s.api.core.v1.EventSource" ]) ∧
  (∀ K, K ∈ [ "io.k8s.api.core.v1.Event"; "io.k8s.api.core.v1.EventSeries";
              "io.k8s.api.core.v1.EventSource" ] → (K ∉ evs) ∧ (K ∉ wfs)).
Proof.
  intros evs wfs. unfold evs, wfs.
  change [ "io.k8s.api.core.v1.Event"; "io.k8s.api.core.v1.EventSeries";
           "io.k8s.api.core.v1.EventSource" ] with exclusions.
  split; [|split]; intros K.
  - rewrite filter_events_elem_of, filter_workflows_elem_of by assumption. tauto.
  - rewrite filter_events_elem_of, filter_workflows_elem_of by assumption.
    pose proof (exclusions_no_marker K).
    destruct (decide (has_marker K)); tauto.
  - intros Hex. pose proof (exclusions_no_marker K Hex).
    rewrite filter_events_elem_of, filter_workflows_elem_of by assumption. tauto.
Qed.

Lemma filter_partition_witness :
  let refs := ["io.argoproj.events.v1.Event"; "io.k8s.api.core.v1.Event";
               "io.k8s.api.core.v1.Pod"] in
  let evs := filter_refs_on_models_type remove_dups refs "events" in
  let wfs := filter_refs_on_models_type (λ xs, reverse (remove_dups xs)) refs "workflows" in
  (∀ K, ¬ (K ∈ evs ∧ K ∈ wfs)) ∧
  (∀ K, (K ∈ evs ∨ K ∈ wfs) ↔
        K ∈ refs ∧ K ∉ [ "io.k8s.api.core.v1.Event"; "io.k8s.api.core.v1.EventSeries";
                         "io.k8s.api.core.v1.EventSource" ]) ∧
  (∀ K, K ∈ [ "io.k8s.api.core.v1.Event"; "io.k8s.api.core.v1.EventSeries";
              "io.k8s.api.core.v1.EventSource" ] → (K ∉ evs) ∧ (K ∉ wfs)).
Proof.
  intros refs.
  exact (@filter_partition remove_dups (λ xs, reverse (remove_dups xs))
           remove_dups_ListSet rev_remove_dups_ListSet refs).
Defined.

(** ** Import assembly *)

Lemma split_snoc sep s : ∃ init symbol, PyStr.split sep s = init ++ [symbol].
Proof.
  induction s as [|c s (init & symbol & IH)]; simpl.
  - by exists [], EmptyString.
  - destruct (Ascii.eqb c sep).
    + exists (EmptyString :: init), symbol. by rewrite IH.
    + rewrite IH. destruct init as [|seg init]; simpl.
      * by exists [], (String c symbol).
      * by exists (String c seg :: init), symbol.
Qed.

(** Splitting at a character and joining with it gives the string back. *)
Lemma join_split sep s :
  PyStr.join (String sep EmptyString) (PyStr.split sep s) = s.
Proof.
  induction s as [|c s IH]; simpl; [done|].
  destruct (Ascii.eqb_spec c sep) as [->|Hne].
  - destruct (split_snoc sep s) as (init & symbol & Hs).
    rewrite Hs in *. destruct init; simpl in *; by rewrite IH.
  - destruct (PyStr.split sep s) as [|seg [|seg' segs]]; simpl in *;
      [by subst | by subst | ].
    by rewrite append_cons, IH.
Qed.

Lemma index_from_end_1 {A} (init : list A) x :
  PyStr.index_from_end (init ++ [x]) 1 = Some x.
Proof. unfold PyStr.index_from_end. by rewrite rev_app_distr. Qed.

Lemma index_from_end_2 {A} (init : list A) x :
  PyStr.index_from_end (init ++ [x]) 2 = last init.
Proof.
  unfold PyStr.index_from_end. rewrite rev_app_distr. simpl.
  destruct init as [|y init _] using rev_ind; [done|].
  by rewrite rev_app_distr, last_snoc.
Qed.

Lemma all_but_last_snoc {A} (init : list A) x :
  PyStr.all_but_last (init ++ [x]) = init.
Proof.
  unfold PyStr.all_but_last. rewrite length_app. simpl.
  replace (length init + 1 - 1) with (length init) by lia.
  by rewrite take_app_length.
Qed.

Lemma import_reference_of_plain {upper : string → string} root key init symbol :
  PyStr.split "." key = init ++ [symbol] →
  symbol ∉ ["HTTPHeader"; "LogEntry"] →
  import_reference_of upper root key
  = Ok (mkImportReference (root +:+ "." +:+ PyStr.join "." init) symbol None).
Proof.
  intros Hs Hn. unfold import_reference_of.
  rewrite Hs, index_from_end_1, all_but_last_snoc. simpl.
  by rewrite bool_decide_eq_false_2.
Qed.

Lemma import_reference_of_colliding {upper : string → string} root key init seg symbol :
  PyStr.split "." key = init ++ [seg; symbol] →
  symbol ∈ ["HTTPHeader"; "LogEntry"] →
  import_reference_of upper root key
  = Ok (mkImportReference (root +:+ "." +:+ PyStr.join "." (init ++ [seg])) symbol
          (Some (PyStr.capitalize upper (seg +:+ symbol)))).
Proof.
  intros Hs Hc. unfold import_reference_of.
  change (init ++ [seg; symbol]) with (init ++ [seg] ++ [symbol]) in Hs.
  rewrite app_assoc in Hs.
  rewrite Hs, index_from_end_1, index_from_end_2, all_but_last_snoc, last_snoc.
  simpl. rewrite bool_decide_eq_true_2 by done. simpl.
  destruct (seg +:+ symbol) as [|c rest] eqn:Hraw; [|done].
  exfalso. destruct seg; [|discriminate]. rewrite append_nil_l in Hraw. subst.
  rewrite !elem_of_cons, elem_of_nil in Hc. by destruct Hc as [?|[?|[]]].
Qed.

Lemma get_import_paths_loop_spec {upper : string → string} root refs acc :
  get_import_paths_loop upper refs root acc
  = rs ← mapM (import_reference_of upper root) refs; Ok (acc ++ rs).
Proof.
  revert acc; induction refs as [|ref refs IH]; intros acc; simpl.
  - by rewrite app_nil_r.
  - destruct (import_reference_of upper root ref) as [r|e]; simpl; [|done].
    rewrite IH. destruct (mapM _ refs) as [rs|e]; simpl; [|done].
    by rewrite <- app_assoc.
Qed.

(** C4 (amended). Import assembly depends on the key and the root path only.
    For a key whose dotted segments are [init] followed by [symbol], where
    [init] is not empty if [symbol] is [HTTPHeader] or [LogEntry]: the module
    path is the root path, a dot, and the segments [init] joined by dots; the
    symbol is [symbol]; the alias is present exactly when [symbol] is
    [HTTPHeader] or [LogEntry], and is then the last segment of [init]
    followed by [symbol], first character upper-cased by [str.upper], here
    [upper].  Key [io.k8s.api.core.v1.HTTPHeader] under root
    [hera.workflows.models] gives path
    [hera.workflows.models.io.k8s.api.core.v1], symbol [HTTPHeader], alias
    [V1HTTPHeader]. *)
Theorem import_assembly_spec (upper : string → string) `{!PyStr.PyUpper upper}
    (key root : string) (init : list string) (symbol : string) :
  PyStr.split "." key = init ++ [symbol] →
  (symbol ∈ ["HTTPHeader"; "LogEntry"] → init ≠ []) →
  (∃ d, get_import_paths_from_refs upper [key] root = Ok [d]
        ∧ path d = root +:+ "." +:+ PyStr.join "." init
        ∧ name d = symbol
        ∧ (is_Some (alias d) ↔ symbol ∈ ["HTTPHeader"; "LogEntry"])
        ∧ (∀ a, alias d = Some a →
             ∃ seg, last init = Some seg ∧ a = PyStr.capitalize upper (seg +:+ symbol)))
  ∧ get_import_paths_from_refs upper ["io.k8s.api.core.v1.HTTPHeader"]
      "hera.workflows.models"
    = Ok [mkImportReference "hera.workflows.models.io.k8s.api.core.v1" "HTTPHeader"
            (Some "V1HTTPHeader")].
Proof.
  intros Hs Hinit. split; [|unfold get_import_paths_from_refs; simpl;
    rewrite (PyStr.upper_ascii_char "v"%char) by (vm_compute; lia); reflexivity].
  unfold get_import_paths_from_refs. rewrite get_import_paths_loop_spec. simpl.
  destruct (decide (symbol ∈ ["HTTPHeader"; "LogEntry"])) as [Hc|Hn].
  - destruct init as [|seg init _] using rev_ind; [by destruct (Hinit Hc)|].
    rewrite <- app_assoc in Hs. simpl in Hs.
    rewrite (import_reference_of_colliding root key init seg symbol Hs Hc). simpl.
    eexists. split; [reflexivity|]. simpl. split; [done|]. split; [done|].
    split; [by split; eauto|].
    intros a [= <-]. exists seg. by rewrite last_snoc.
  - rewrite (import_reference_of_plain root key init symbol Hs Hn). simpl.
    eexists. split; [reflexivity|]. simpl. split; [done|]. split; [done|].
    split; [|by intros a ?].
    split; [by intros [? ?] | done].
Qed.

Lemma upper_ascii_PyUpper : PyStr.PyUpper PyStr.upper_ascii.
Proof. by split. Qed.

Lemma import_assembly_spec_witness :
  (∃ d, get_import_paths_from_refs PyStr.upper_ascii
          ["io.argoproj.workflow.v1alpha1.LogEntry"] "hera.events.models" = Ok [d]
        ∧ path d = "hera.events.models" +:+ "." +:+
                   PyStr.join "." ["io"; "argoproj"; "workflow"; "v1alpha1"]
        ∧ name d = "LogEntry"
        ∧ (is_Some (alias d) ↔ "LogEntry" ∈ ["HTTPHeader"; "LogEntry"])
        ∧ (∀ a, alias d = Some a →
             ∃ seg, last ["io"; "argoproj"; "workflow"; "v1alpha1"] = Some seg
                    ∧ a = PyStr.capitalize PyStr.upper_ascii (seg +:+ "LogEntry")))
  ∧ get_import_paths_from_refs PyStr.upper_ascii ["io.k8s.api.core.v1.HTTPHeader"]
      "hera.workflows.models"
    = Ok [mkImportReference "hera.workflows.models.io.k8s.api.core.v1" "HTTPHeader"
            (Some "V1HTTPHeader")].
Proof.
  apply (@import_assembly_spec PyStr.upper_ascii upper_ascii_PyUpper
           "io.argoproj.workflow.v1alpha1.LogEntry"
           "hera.events.models" ["io"; "argoproj"; "workflow"; "v1alpha1"] "LogEntry").
  - reflexivity.
  - intros _. discriminate.
Defined.

(** C4 as stated fails for the key [HTTPHeader]: it has no second-to-last
    segment, and assembly raises [IndexError] instead of giving a
    descriptor, whatever [str.upper] does. *)
Lemma import_assembly_bare_colliding_key :
  (∀ upper, get_import_paths_from_refs upper ["HTTPHeader"] "hera.workflows.models"
            = Raise IndexError)
  ∧ ¬ ∃ upper d,
        get_import_paths_from_refs upper ["HTTPHeader"] "hera.workflows.models" = Ok [d].
Proof.
  split; [reflexivity|]. intros (upper & d & Hd). vm_compute in Hd. discriminate.
Qed.

(** ** Command line *)

(** C5. When the argument vector does not hold exactly the script name and
    two arguments, or its second argument is neither [workflows] nor
    [events], the script raises [AssertionError] and leaves the world as it
    was: no URL has been retrieved. *)
Theorem argument_error_before_retrieval (upper : string → string)
    list_set (ensure_init : M unit)
    (argv : list string) (w : World) :
  length argv ≠ 3 ∨ (∃ arg, argv !! 2 = Some arg ∧ arg ∉ ["workflows"; "events"]) →
  main upper list_set ensure_init argv w = (w, Raise AssertionError)
  ∧ requested (main upper list_set ensure_init argv w).1 = requested w.
Proof.
  intros Hargs.
  assert (get_models_type argv = Raise AssertionError) as Hmt.
  { unfold get_models_type.
    destruct (Nat.eqb_spec (length argv) 3) as [Hlen|Hlen]; simpl; [|done].
    destruct Hargs as [?|(arg & -> & Harg)]; [done|]. simpl.
    by rewrite bool_decide_eq_false_2. }
  assert (main upper list_set ensure_init argv w = (w, Raise AssertionError)) as Hmain.
  { unfold main, lift, mbind, M_bind. by rewrite Hmt. }
  by rewrite Hmain.
Qed.

Lemma argument_error_before_retrieval_witness :
  let w := mkWorld (λ _, mkResponse true 200 (Some [])) [] ∅ ∅ in
  let argv := ["scripts/models.py"; "https://example.org/swagger.json"; "sensors"] in
  main PyStr.upper_ascii remove_dups (mret tt) argv w = (w, Raise AssertionError)
  ∧ requested (main PyStr.upper_ascii remove_dups (mret tt) argv w).1 = requested w.
Proof.
  intros w argv.
  apply (argument_error_before_retrieval PyStr.upper_ascii remove_dups (mret tt) argv w).
  right. exists "sensors". split; [reflexivity|].
  rewrite !elem_of_cons, elem_of_nil. intros [?|[?|[]]]; discriminate.
Defined.

(** ** Comparison functions *)

Section compare_facts.
Context {A} (cmp : A → A → comparison) `{!CompareOK cmp}.

Lemma cmp_refl x : cmp x x = Eq.
Proof. by apply (cmp_eq (cmp:=cmp)). Qed.

Lemma cmp_gt_lt x y : cmp x y = Gt ↔ cmp y x = Lt.
Proof. rewrite (cmp_antisym (cmp:=cmp) x y). destruct (cmp x y); simpl; by split. Qed.

Lemma cmp_le_antisym x y : cmp x y ≠ Gt → cmp y x ≠ Gt → x = y.
Proof.
  intros Hxy Hyx. apply (cmp_eq (cmp:=cmp)).
  destruct (cmp x y) eqn:Hc; [done| |done].
  exfalso. apply Hyx. by apply cmp_gt_lt.
Qed.

Lemma cmp_le_trans x y z : cmp x y ≠ Gt → cmp y z ≠ Gt → cmp x z ≠ Gt.
Proof.
  intros Hxy Hyz.
  destruct (cmp x y) eqn:Hc1; [| |done].
  - apply (cmp_eq (cmp:=cmp)) in Hc1 as ->. done.
  - destruct (cmp y z) eqn:Hc2; [| |done].
    + apply (cmp_eq (cmp:=cmp)) in Hc2 as <-. by rewrite Hc1.
    + by rewrite (cmp_trans (cmp:=cmp) x y z).
Qed.

Lemma cmp_le_total x y : cmp x y ≠ Gt ∨ cmp y x ≠ Gt.
Proof.
  destruct (cmp x y) eqn:Hc; [by left|by left|].
  right. apply cmp_gt_lt in Hc. by rewrite Hc.
Qed.
End compare_facts.

Lemma string_compare_refl s : String.compare s s = Eq.
Proof.
  induction s as [|c s IH]; simpl; [done|].
  unfold Ascii.compare. by rewrite N.compare_refl.
Qed.

Lemma string_compare_eq s1 s2 : String.compare s1 s2 = Eq ↔ s1 = s2.
Proof.
  split; [apply String.compare_eq_iff | intros ->; apply string_compare_refl].
Qed.

Lemma string_compare_lt_le s1 s2 :
  String.compare s1 s2 = Lt ↔ String.le s1 s2 ∧ s1 ≠ s2.
Proof.
  unfold String.le, String.leb. split.
  - intros Hc. rewrite Hc. split; [done|].
    intros <-. by rewrite string_compare_refl in Hc.
  - intros [Hle Hne]. destruct (String.compare s1 s2) eqn:Hc; [|done|done].
    by apply String.compare_eq_iff in Hc.
Qed.

Global Instance string_compare_ok : CompareOK String.compare.
Proof.
  split.
  - apply string_compare_eq.
  - intros x y. apply String.compare_antisym.
  - intros x y z [Hxy Hnxy]%string_compare_lt_le [Hyz Hnyz]%string_compare_lt_le.
    apply string_compare_lt_le. split; [by etrans|].
    intros <-. apply Hnxy. by apply (anti_symm String.le).
Qed.

Global Instance alias_compare_ok : CompareOK alias_compare.
Proof.
  split.
  - intros [x|] [y|]; simpl; [|done..].
    rewrite string_compare_eq. split; congruence.
  - intros [x|] [y|]; simpl; [|done..]. apply String.compare_antisym.
  - intros [x|] [y|] [z|]; simpl; try done. apply (cmp_trans (cmp:=String.compare)).
Qed.

Global Instance cmp_pair_ok {A B} (cmpA : A → A → comparison)
    (cmpB : B → B → comparison) `{!CompareOK cmpA} `{!CompareOK cmpB} :
  CompareOK (cmp_pair cmpA cmpB).
Proof.
  split; unfold cmp_pair.
  - intros [a b] [a' b']; simpl. split.
    + destruct (cmpA a a') eqn:Ha; simpl; [|done..].
      intros Hb. apply (cmp_eq (cmp:=cmpA)) in Ha. apply (cmp_eq (cmp:=cmpB)) in Hb.
      congruence.
    + intros [= <- <-]. by rewrite (cmp_refl cmpA), (cmp_refl cmpB).
  - intros [a b] [a' b']; simpl.
    rewrite (cmp_antisym (cmp:=cmpA) a a').
    destruct (cmpA a a'); simpl; [|done..]. apply (cmp_antisym (cmp:=cmpB)).
  - intros [a b] [a' b'] [a'' b'']; simpl.
    destruct (cmpA a a') eqn:H1; simpl; [| |done].
    + apply (cmp_eq (cmp:=cmpA)) in H1 as <-. destruct (cmpA a a''); simpl; [|done..].
      apply (cmp_trans (cmp:=cmpB)).
    + intros _. destruct (cmpA a' a'') eqn:H2; simpl; [| |done].
      * apply (cmp_eq (cmp:=cmpA)) in H2 as <-. by rewrite H1.
      * by rewrite (cmp_trans (cmp:=cmpA) a a' a'').
Qed.

Global Instance cmp2_ok : CompareOK cmp2.
Proof. unfold cmp2. apply _. Qed.

Lemma key3_inj a b : key3 a = key3 b → a = b.
Proof. destruct a, b. unfold key3, key2. simpl. congruence. Qed.

Global Instance ref_compare_ok : CompareOK ref_compare.
Proof.
  unfold ref_compare. split.
  - intros x y. rewrite (cmp_eq (cmp:=cmp_pair cmp2 alias_compare)).
    split; [apply key3_inj | by intros ->].
  - intros x y. apply (cmp_antisym (cmp:=cmp_pair cmp2 alias_compare)).
  - intros x y z. apply (cmp_trans (cmp:=cmp_pair cmp2 alias_compare)).
Qed.

Global Instance ref_le_trans : Transitive ref_le.
Proof. intros x y z. apply (cmp_le_trans ref_compare). Qed.

Global Instance ref_le_antisym : AntiSymm (=) ref_le.
Proof. intros x y. apply (cmp_le_antisym ref_compare). Qed.

(** The first two components decide unless they agree. *)
Lemma ref_compare_key2 a b :
  ref_compare a b ≠ Gt → cmp2 (key2 a) (key2 b) ≠ Gt.
Proof.
  unfold ref_compare, cmp_pair at 1. simpl.
  by destruct (cmp2 (key2 a) (key2 b)).
Qed.

Lemma key2_sandwich x h y :
  ref_le x h → ref_le h y → key2 x = key2 y → key2 h = key2 x.
Proof.
  intros Hxh%ref_compare_key2 Hhy%ref_compare_key2 Hk.
  rewrite <- Hk in Hhy. symmetry. by apply (cmp_le_antisym cmp2).
Qed.

(** ** [<] on descriptors against the total order *)

Lemma string_ltb_compare s1 s2 :
  String.ltb s1 s2 = bool_decide (String.compare s1 s2 = Lt).
Proof. unfold String.ltb. by destruct (String.compare s1 s2). Qed.

Lemma string_eqb_compare s1 s2 :
  String.eqb s1 s2 = bool_decide (String.compare s1 s2 = Eq).
Proof.
  destruct (String.eqb_spec s1 s2) as [->|Hne].
  - by rewrite (cmp_refl String.compare).
  - symmetry. apply bool_decide_eq_false. by rewrite string_compare_eq.
Qed.

Lemma tuple_lt_comparable a b :
  comparable a b →
  tuple_lt a b = Some (bool_decide (ref_compare a b = Lt)).
Proof.
  unfold comparable, tuple_lt, ref_compare, cmp_pair, cmp2, cmp_pair, key3, key2.
  destruct a as [pa na aa], b as [pb nb ab]; simpl.
  rewrite !string_eqb_compare, !string_ltb_compare.
  destruct (String.compare pa pb) eqn:Hp; simpl; [|done..].
  destruct (String.compare na nb) eqn:Hn; simpl; [|done..].
  apply string_compare_eq in Hp, Hn. subst. intros Hc. specialize (Hc eq_refl).
  destruct aa, ab; simpl; try done.
  - by rewrite string_ltb_compare.
  - by destruct Hc as [_ Hc]; specialize (Hc eq_refl).
  - by destruct Hc as [Hc _]; specialize (Hc eq_refl).
Qed.

Lemma tuple_lt_not_comparable a b :
  ¬ comparable a b → tuple_lt a b = None.
Proof.
  unfold comparable, tuple_lt, key2.
  destruct a as [pa na aa], b as [pb nb ab]; simpl. intros Hnc.
  destruct (String.eqb_spec pa pb) as [->|?]; simpl; [|by destruct Hnc; congruence].
  destruct (String.eqb_spec na nb) as [->|?]; simpl; [|by destruct Hnc; congruence].
  destruct aa, ab; try done; destruct Hnc; by split.
Qed.

Lemma classic_comparable a b : comparable a b ∨ ¬ comparable a b.
Proof.
  unfold comparable.
  destruct (decide (key2 a = key2 b)) as [Hk|?]; [|by left].
  destruct (alias a), (alias b).
  - left. intros _. by split.
  - right. intros Hc. destruct (Hc Hk) as [_ H2]. by specialize (H2 eq_refl).
  - right. intros Hc. destruct (Hc Hk) as [H1 _]. by specialize (H1 eq_refl).
  - by left.
Qed.

Lemma tuple_lt_Some a b c : tuple_lt a b = Some c → comparable a b.
Proof.
  intros Hc. destruct (classic_comparable a b) as [?|Hn]; [done|].
  by rewrite (tuple_lt_not_comparable a b Hn) in Hc.
Qed.

Lemma comparable_sym a b : comparable a b → comparable b a.
Proof. unfold comparable. intros Hc Hk. symmetry. by apply Hc. Qed.

Lemma comparable_refl a : comparable a a.
Proof. by intros _. Qed.

Lemma all_comparable_cons x l :
  all_comparable (x :: l) ↔ Forall (comparable x) l ∧ all_comparable l.
Proof.
  unfold all_comparable. rewrite Forall_forall. split.
  - intros Hall. split.
    + intros y Hy. apply Hall; [left | by right].
    + intros a b Ha Hb. apply Hall; by right.
  - intros [Hx Hl] a b [->|Ha]%elem_of_cons [->|Hb]%elem_of_cons; auto.
    + apply comparable_refl.
    + apply comparable_sym; auto.
Qed.

Lemma all_comparable_Permutation l l' :
  l ≡ₚ l' → all_comparable l → all_comparable l'.
Proof.
  intros Hp Hall a b Ha Hb. apply Hall; by rewrite Hp.
Qed.

(** ** [sorted] on descriptors *)

Lemma tuple_lt_true a b : tuple_lt a b = Some true → ref_le a b.
Proof.
  intros Hlt. pose proof (tuple_lt_Some _ _ _ Hlt) as Hc.
  rewrite (tuple_lt_comparable a b Hc) in Hlt.
  injection Hlt as Hlt. apply bool_decide_eq_true in Hlt.
  unfold ref_le. by rewrite Hlt.
Qed.

Lemma tuple_lt_false a b : tuple_lt a b = Some false → ref_le b a.
Proof.
  intros Hlt. pose proof (tuple_lt_Some _ _ _ Hlt) as Hc.
  rewrite (tuple_lt_comparable a b Hc) in Hlt.
  injection Hlt as Hlt. apply bool_decide_eq_false in Hlt.
  unfold ref_le. by rewrite (cmp_gt_lt ref_compare).
Qed.

Lemma insert_sorted_Permutation x s s' :
  insert_sorted x s = Ok s' → s' ≡ₚ x :: s.
Proof.
  revert s'; induction s as [|h t IH]; intros s'; simpl.
  - by intros [= <-].
  - destruct (tuple_lt h x) as [[|]|]; simpl; [| |done].
    + destruct (insert_sorted x t) as [t'|e]; simpl; [|done].
      intros [= <-]. rewrite (IH t' eq_refl). apply Permutation_swap.
    + by intros [= <-].
Qed.

Lemma insert_sorted_StronglySorted x s s' :
  insert_sorted x s = Ok s' → StronglySorted ref_le s → StronglySorted ref_le s'.
Proof.
  revert s'; induction s as [|h t IH]; intros s'; simpl.
  - intros [= <-] _. repeat constructor.
  - intros Hins Hs. apply StronglySorted_inv in Hs as [Ht Hh].
    destruct (tuple_lt h x) as [[|]|] eqn:Hlt; simpl in Hins; [| |done].
    + destruct (insert_sorted x t) as [t'|e] eqn:Ht'; simpl in Hins; [|done].
      injection Hins as <-. constructor; [by apply IH|].
      rewrite (insert_sorted_Permutation _ _ _ Ht').
      constructor; [by apply tuple_lt_true | done].
    + injection Hins as <-. apply tuple_lt_false in Hlt.
      constructor; [by constructor|].
      constructor; [done|].
      eapply Forall_impl; [exact Hh|]. intros y Hy. by etrans.
Qed.

(** When insertion succeeds, the inserted descriptor was comparable with
    every descriptor of the list, also with those it was not compared to. *)
Lemma insert_sorted_comparable x s s' :
  insert_sorted x s = Ok s' → StronglySorted ref_le s → all_comparable s →
  Forall (comparable x) s.
Proof.
  revert s'; induction s as [|h t IH]; intros s'; simpl; [by constructor|].
  intros Hins Hs Hall.
  apply StronglySorted_inv in Hs as [Ht Hh].
  apply all_comparable_cons in Hall as [Hhc Hall].
  destruct (tuple_lt h x) as [[|]|] eqn:Hlt; simpl in Hins; [| |done].
  - destruct (insert_sorted x t) as [t'|e] eqn:Ht'; simpl in Hins; [|done].
    constructor; [by eapply comparable_sym, tuple_lt_Some | by eapply IH].
  - pose proof (tuple_lt_Some _ _ _ Hlt) as Hhx.
    apply tuple_lt_false in Hlt.
    constructor; [by apply comparable_sym|].
    rewrite Forall_forall in Hh, Hhc. apply Forall_forall. intros y Hy Hk.
    pose proof (key2_sandwich x h y Hlt (Hh y Hy) Hk) as Hkh.
    rewrite <- (Hhx Hkh). apply (Hhc y Hy). congruence.
Qed.

Lemma insert_sorted_ok x s :
  Forall (comparable x) s → ∃ s', insert_sorted x s = Ok s'.
Proof.
  induction 1 as [|h t Hh Ht [t' IH]]; simpl; [by eexists|].
  rewrite (tuple_lt_comparable h x) by by apply comparable_sym. simpl.
  destruct (bool_decide _); [|by eexists].
  rewrite IH. simpl. by eexists.
Qed.

Lemma insert_sorted_raise x s e : insert_sorted x s = Raise e → e = TypeError.
Proof.
  induction s as [|h t IH]; simpl; [done|].
  destruct (tuple_lt h x) as [[|]|]; simpl; [| done | by intros [= <-]].
  destruct (insert_sorted x t); simpl; [done|]. intros [= <-]. by apply IH.
Qed.

Lemma sorted_Ok l s :
  sorted l = Ok s → StronglySorted ref_le s ∧ s ≡ₚ l ∧ all_comparable l.
Proof.
  revert s; induction l as [|x t IH]; intros s; simpl.
  - intros [= <-]. split; [constructor|]. split; [done|].
    by intros a b ?%elem_of_nil.
  - destruct (sorted t) as [s0|e]; simpl; [|done]. intros Hins.
    destruct (IH s0 eq_refl) as (Hs0 & Hp & Hall).
    split; [by eapply insert_sorted_StronglySorted|].
    split; [by rewrite (insert_sorted_Permutation _ _ _ Hins), Hp|].
    apply all_comparable_cons. split; [|done].
    rewrite <- Hp. eapply insert_sorted_comparable; [done..|].
    by eapply all_comparable_Permutation.
Qed.

Lemma sorted_total l : all_comparable l → ∃ s, sorted l = Ok s.
Proof.
  induction l as [|x t IH]; simpl; [by eexists|].
  intros [Hx Ht]%all_comparable_cons.
  destruct (IH Ht) as [s Hs]. rewrite Hs. simpl.
  apply insert_sorted_ok. apply sorted_Ok in Hs as (_ & Hp & _). by rewrite Hp.
Qed.

Lemma sorted_Raise l e : sorted l = Raise e → e = TypeError ∧ ¬ all_comparable l.
Proof.
  intros Hr. split.
  - revert Hr. induction l as [|x t IH]; simpl; [done|].
    destruct (sorted t); simpl; [apply insert_sorted_raise | intros [= <-]; by apply IH].
  - intros [s Hs]%sorted_total. congruence.
Qed.

(** The outcome of [sorted] does not depend on the order of its argument. *)
Lemma sorted_Permutation l l' : l ≡ₚ l' → sorted l = sorted l'.
Proof.
  intros Hp.
  destruct (sorted l) as [s|e] eqn:Hl, (sorted l') as [s'|e'] eqn:Hl'.
  - apply sorted_Ok in Hl as (Hs & Hps & _), Hl' as (Hs' & Hps' & _).
    f_equal. apply (StronglySorted_unique ref_le); [done..|].
    by rewrite Hps, Hps'.
  - apply sorted_Ok in Hl as (_ & _ & Hall). apply sorted_Raise in Hl' as [_ Hn].
    destruct Hn. by eapply all_comparable_Permutation.
  - apply sorted_Ok in Hl' as (_ & _ & Hall). apply sorted_Raise in Hl as [_ Hn].
    destruct Hn. by eapply all_comparable_Permutation.
  - apply sorted_Raise in Hl as [-> _], Hl' as [-> _]. done.
Qed.

(** ** Running computations *)

Lemma bind_Ok {A B} (m : M A) (f : A → M B) w w' a :
  m w = (w', Ok a) → (m ≫= f) w = f a w'.
Proof. intros Hm. unfold mbind, M_bind. by rewrite Hm. Qed.

Lemma bind_Raise {A B} (m : M A) (f : A → M B) w w' e :
  m w = (w', Raise e) → (m ≫= f) w = (w', Raise e).
Proof. intros Hm. unfold mbind, M_bind. by rewrite Hm. Qed.

Lemma alter_lookup {V} (f : V → V) (m : gmap string V) i x :
  m !! i = Some x → alter f i m = <[i := f x]> m.
Proof.
  intros Hi. apply map_eq. intros j. destruct (decide (i = j)) as [<-|Hne].
  - by rewrite lookup_alter_eq, lookup_insert_eq, Hi.
  - by rewrite lookup_alter_ne, lookup_insert_ne.
Qed.

Lemma for_each_list_append l (f : string → ImportReference) xs w rs :
  heap w !! l = Some rs →
  for_each xs (λ x, list_append l (f x)) w
  = (set_heap (<[l := rs ++ map f xs]> (heap w)) w, Ok tt).
Proof.
  revert w rs; induction xs as [|x xs IH]; intros w rs Hl; simpl.
  - rewrite app_nil_r, insert_id by done. by destruct w.
  - erewrite bind_Ok; [|unfold list_append; by rewrite Hl].
    erewrite IH; [|apply lookup_insert_eq]. simpl.
    by rewrite insert_insert_eq, <- app_assoc.
Qed.

Lemma for_each_file_write p (g : ImportReference → string) xs w c :
  files w !! p = Some c →
  for_each xs (λ x, file_write p (g x)) w
  = (set_files (<[p := c +:+ concat_str (map g xs)]> (files w)) w, Ok tt).
Proof.
  revert w c; induction xs as [|x xs IH]; intros w c Hp; simpl.
  - rewrite append_nil_r, insert_id by done. by destruct w.
  - erewrite bind_Ok; [|unfold file_write; by rewrite (alter_lookup _ _ _ _ Hp)].
    erewrite IH; [|apply lookup_insert_eq]. simpl.
    by rewrite insert_insert_eq, append_assoc.
Qed.

(** The world after [write_imports]: the list object and the target file
    have changed, nothing else. *)
Lemma write_imports_run l models_type url w refs :
  heap w !! l = Some refs →
  let all := refs ++ fixed_references models_type in
  write_imports l models_type url w
  = match sorted all with
    | Ok emitted =>
        (mkWorld (remote w) (requested w)
           (<[target_path models_type := header models_type url +:+ body all emitted]>
              (files w))
           (<[l := all]> (heap w)), Ok tt)
    | Raise e =>
        (mkWorld (remote w) (requested w)
           (<[target_path models_type := header models_type url]> (files w))
           (<[l := all]> (heap w)), Raise e)
    end.
Proof.
  intros Hl all. unfold write_imports.
  erewrite bind_Ok; [|reflexivity].
  erewrite bind_Ok; [|reflexivity].
  set (evs := if String.eqb models_type "events"
              then map (λ event, mkImportReference
                     "hera.events.models.io.argoproj.workflow.v1alpha1" event None) events
              else []).
  set (w2 := set_files _ _).
  assert (heap w2 !! l = Some refs) as Hl2 by done.
  erewrite (bind_Ok _ _ _ (set_heap (<[l := refs ++ evs]> (heap w2)) w2) tt); cycle 1.
  { unfold evs. destruct (String.eqb models_type "events").
    - by rewrite (for_each_list_append l
        (λ event, mkImportReference
           "hera.events.models.io.argoproj.workflow.v1alpha1" event None) events w2 refs).
    - unfold mret, M_ret. rewrite app_nil_r, insert_id by done. by destruct w2. }
  rewrite (bind_Ok _ _ _ _ tt
    (for_each_list_append l
       (λ enum, mkImportReference
          ("hera." +:+ models_type +:+ ".models.io.k8s.api.core.v1") enum None)
       enums _ (refs ++ evs) (lookup_insert_eq _ _ _))).
  erewrite (bind_Ok _ _ _ _ all); cycle 1.
  { unfold list_read, all, fixed_references. simpl.
    by rewrite lookup_insert_eq, app_assoc. }
  destruct (sorted all) as [emitted|e] eqn:Hsorted.
  - erewrite bind_Ok; [|reflexivity].
    erewrite bind_Ok; cycle 1.
    { erewrite for_each_file_write; [done|]. simpl.
      rewrite lookup_alter_eq, lookup_insert_eq. done. }
    erewrite (bind_Ok _ _ _ _ all); cycle 1.
    { unfold list_read, all, fixed_references. simpl.
      by rewrite lookup_insert_eq, app_assoc. }
    unfold file_write, set_files, set_heap, body.
    cbn [remote requested files heap].
    f_equal. f_equal.
    + rewrite alter_insert_eq, insert_alter_eq, insert_insert_eq.
      by rewrite append_nil_l, !append_assoc.
    + rewrite insert_insert_eq, <- app_assoc. reflexivity.
  - erewrite bind_Raise; [|reflexivity].
    unfold w2, set_files, set_heap. cbn [remote requested files heap].
    f_equal. f_equal.
    + by rewrite alter_insert_eq, append_nil_l.
    + rewrite insert_insert_eq, <- app_assoc. reflexivity.
Qed.

(** ** Descriptors produced by import assembly *)

Lemma mapM_outcome_Ok {A B} (f : A → outcome B) l rs :
  mapM f l = Ok rs ↔ Forall2 (λ x y, f x = Ok y) l rs.
Proof.
  revert rs; induction l as [|x l IH]; intros rs; simpl.
  - split; [intros [= <-]; constructor | by intros ->%Forall2_nil_inv_l].
  - split.
    + destruct (f x) as [y|e] eqn:Hx; simpl; [|done].
      destruct (mapM f l) as [ys|e] eqn:Hl; simpl; [|done].
      intros [= <-]. constructor; [done | by apply IH].
    + intros (y & ys & Hy & Hys & ->)%Forall2_cons_inv_l.
      apply IH in Hys. by rewrite Hy, Hys.
Qed.

Lemma get_import_paths_from_refs_Ok {upper : string → string} keys root refs :
  get_import_paths_from_refs upper keys root = Ok refs
  ↔ Forall2 (λ k d, import_reference_of upper root k = Ok d) keys refs.
Proof.
  unfold get_import_paths_from_refs. rewrite get_import_paths_loop_spec.
  rewrite <- mapM_outcome_Ok.
  destruct (mapM _ keys) as [rs|e]; simpl; [|done]. split; congruence.
Qed.

Lemma append_nonempty_r s t : t ≠ EmptyString → s +:+ t ≠ EmptyString.
Proof. by destruct s. Qed.

Lemma length_append s t : String.length (s +:+ t) = String.length s + String.length t.
Proof. induction s as [|c s IH]; [done|]. rewrite append_cons. simpl. by rewrite IH. Qed.

Lemma length_drop_bytes n s :
  String.length (PyStr.drop_bytes n s) = String.length s - n.
Proof.
  revert s; induction n as [|n IH]; intros [|c s]; simpl; auto with lia.
Qed.

Lemma char_width_le c : PyStr.char_width c ≤ 4.
Proof. unfold PyStr.char_width. repeat case_match; lia. Qed.

(** A [str] of more than four bytes has more than one character, and
    capitalising it does not give the empty [str]. *)
Lemma capitalize_nonempty upper s :
  4 < String.length s → PyStr.capitalize upper s ≠ EmptyString.
Proof.
  intros Hlen. apply append_nonempty_r. intros Hrest.
  assert (String.length (PyStr.after_first_char s) = 0) as Hz by by rewrite Hrest.
  destruct s as [|c s]; [simpl in Hlen; lia|].
  unfold PyStr.after_first_char in Hz. rewrite length_drop_bytes in Hz.
  pose proof (char_width_le c). lia.
Qed.

Lemma import_reference_of_assembled {upper : string → string} root key d :
  import_reference_of upper root key = Ok d → assembled d.
Proof.
  destruct (split_snoc "." key) as (init & symbol & Hs).
  destruct (decide (symbol ∈ ["HTTPHeader"; "LogEntry"])) as [Hc|Hn].
  - destruct init as [|seg init _] using rev_ind.
    + unfold import_reference_of. rewrite Hs. simpl.
      rewrite bool_decide_eq_true_2 by done. done.
    + rewrite <- app_assoc in Hs. simpl in Hs.
      rewrite (import_reference_of_colliding root key init seg symbol Hs Hc).
      intros [= <-]. split; simpl.
      * split; [done | by intros []].
      * intros a [= <-]. apply capitalize_nonempty. rewrite length_append.
        rewrite !elem_of_cons, elem_of_nil in Hc.
        destruct Hc as [->|[->|[]]]; simpl; lia.
  - rewrite (import_reference_of_plain root key init symbol Hs Hn).
    intros [= <-]. by split.
Qed.

Lemma get_import_paths_from_refs_assembled {upper : string → string} keys root refs :
  get_import_paths_from_refs upper keys root = Ok refs → Forall assembled refs.
Proof.
  rewrite get_import_paths_from_refs_Ok. induction 1 as [|k d ks ds Hd _ IH].
  - constructor.
  - constructor; [by eapply import_reference_of_assembled | done].
Qed.

Lemma fixed_references_assembled models_type :
  Forall assembled (fixed_references models_type).
Proof.
  assert (∀ p n, n ∈ events ++ enums → assembled (mkImportReference p n None)) as Hn.
  { intros p n Hin. split; simpl; [|done]. split; [|done]. intros _.
    revert Hin. unfold events, enums. simpl.
    rewrite !elem_of_cons, !elem_of_nil. intros Hin [?|[?|[]]]; subst;
      repeat (destruct Hin as [?|Hin]; [discriminate|]); done. }
  unfold fixed_references. apply Forall_app. split.
  - destruct (String.eqb models_type "events"); [|constructor].
    apply Forall_forall. intros d (n & -> & Hin)%list_elem_of_fmap.
    apply Hn, elem_of_app. by left.
  - apply Forall_forall. intros d (n & -> & Hin)%list_elem_of_fmap.
    apply Hn, elem_of_app. by right.
Qed.

Lemma assembled_all_comparable l : Forall assembled l → all_comparable l.
Proof.
  rewrite Forall_forall. intros Hl a b Ha Hb Hk.
  destruct (Hl a Ha) as [-> _], (Hl b Hb) as [-> _].
  unfold key2 in Hk. injection Hk as _ Hn. by rewrite Hn.
Qed.

Lemma assembled_aliased_name d : assembled d → aliased_name d = export_name d.
Proof.
  intros [_ Hne]. unfold aliased_name, export_name.
  destruct (alias d) as [[|c a]|]; [|done..]. by destruct (Hne EmptyString).
Qed.

(** Generation succeeds on what import assembly produces. *)
Lemma sorted_assembled refs models_type :
  Forall assembled refs →
  ∃ emitted, sorted (refs ++ fixed_references models_type) = Ok emitted
             ∧ emitted ≡ₚ refs ++ fixed_references models_type.
Proof.
  intros Hrefs.
  destruct (sorted_total (refs ++ fixed_references models_type)) as [emitted He].
  { apply assembled_all_comparable, Forall_app.
    split; [done | apply fixed_references_assembled]. }
  exists emitted. split; [done|]. by apply sorted_Ok in He as (_ & ? & _).
Qed.

Lemma sorted_str_Sorted l : Sorted String.le (sorted_str l).
Proof. apply (Sorted_merge_sort String.le). Qed.

Lemma sorted_str_Permutation l l' : l ≡ₚ l' → sorted_str l = sorted_str l'.
Proof.
  intros Hp. apply (Sorted_unique String.le); [apply sorted_str_Sorted..|].
  unfold sorted_str. by rewrite !merge_sort_Permutation.
Qed.

Lemma body_Permutation refs refs' emitted :
  refs ≡ₚ refs' → body refs emitted = body refs' emitted.
Proof.
  intros Hp. unfold body.
  by rewrite (sorted_str_Permutation _ _
    (Permutation_map (λ ref, dq +:+ aliased_name ref +:+ dq) Hp)).
Qed.

(** ** Generation: the claims *)

(** C8. Whatever descriptors it is given, generation appends to them the ten
    fixed enum symbols, all from the module path
    [hera.<category>.models.io.k8s.api.core.v1], preceded for category
    [events] by the six fixed symbols from
    [hera.events.models.io.argoproj.workflow.v1alpha1]; when the descriptors
    can be sorted, the file holds one import line for each descriptor of the
    extended list. *)
Theorem fixed_symbols_appended (l : loc) (models_type url : string) (w : World)
    (refs : list ImportReference) :
  heap w !! l = Some refs →
  let fixed :=
    (if String.eqb models_type "events" then
       map (λ n, mkImportReference
                   "hera.events.models.io.argoproj.workflow.v1alpha1" n None)
         ["Item"; "Event"; "EventResponse"; "GetUserInfoResponse"; "InfoResponse";
          "Version"]
     else [])
    ++ map (λ n, mkImportReference
                   ("hera." +:+ models_type +:+ ".models.io.k8s.api.core.v1") n None)
         ["ImagePullPolicy"; "TerminationMessagePolicy"; "Protocol"; "Scheme";
          "Operator"; "Type"; "Phase"; "TypeModel"; "Effect"; "OperatorModel"] in
  let run := write_imports l models_type url w in
  heap run.1 !! l = Some (refs ++ fixed)
  ∧ (run.2 = Ok tt ↔ all_comparable (refs ++ fixed))
  ∧ (run.2 = Ok tt →
       ∃ emitted, emitted ≡ₚ refs ++ fixed
         ∧ files run.1 !! target_path models_type
           = Some (header models_type url +:+ body (refs ++ fixed) emitted)).
Proof.
  intros Hl fixed run.
  change fixed with (fixed_references models_type). unfold run.
  rewrite (write_imports_run l models_type url w refs Hl). cbv zeta.
  destruct (sorted (refs ++ fixed_references models_type)) as [emitted|e] eqn:Hs;
    simpl.
  - apply sorted_Ok in Hs as (_ & Hp & Hall).
    split; [apply lookup_insert_eq|]. split; [done|].
    intros _. exists emitted. split; [done | apply lookup_insert_eq].
  - apply sorted_Raise in Hs as [_ Hn].
    split; [apply lookup_insert_eq|]. split; [by split|done].
Qed.

Lemma fixed_symbols_appended_witness :
  let refs := [mkImportReference "hera.events.models.io.argoproj.events.v1alpha1"
                 "Sensor" None] in
  let fixed :=
    map (λ n, mkImportReference
                "hera.events.models.io.argoproj.workflow.v1alpha1" n None)
      ["Item"; "Event"; "EventResponse"; "GetUserInfoResponse"; "InfoResponse";
       "Version"]
    ++ map (λ n, mkImportReference "hera.events.models.io.k8s.api.core.v1" n None)
         ["ImagePullPolicy"; "TerminationMessagePolicy"; "Protocol"; "Scheme";
          "Operator"; "Type"; "Phase"; "TypeModel"; "Effect"; "OperatorModel"] in
  let run := write_imports 0 "events" "https://example.org/swagger.json"
               (world_with_list refs) in
  heap run.1 !! 0 = Some (refs ++ fixed)
  ∧ (run.2 = Ok tt ↔ all_comparable (refs ++ fixed))
  ∧ (run.2 = Ok tt →
       ∃ emitted, emitted ≡ₚ refs ++ fixed
         ∧ files run.1 !! target_path "events"
           = Some (header "events" "https://example.org/swagger.json"
                   +:+ body (refs ++ fixed) emitted)).
Proof.
  intros refs.
  apply (fixed_symbols_appended 0 "events" "https://example.org/swagger.json"
           (world_with_list refs) refs).
  reflexivity.
Defined.

(** C10. Generation changes the list object it is given: after
    [write_imports] the caller's list is the original list followed by the
    fixed descriptors of the category, and a second [write_imports] on the
    same list appends them once more, so that the second file has import
    lines for the original descriptors and for the fixed descriptors
    twice. *)
Theorem write_imports_mutates_argument (l : loc) (models_type url1 url2 : string)
    (w : World) (refs : list ImportReference) :
  heap w !! l = Some refs →
  let fixed := fixed_references models_type in
  let run1 := write_imports l models_type url1 w in
  let run2 := write_imports l models_type url2 run1.1 in
  heap run1.1 !! l = Some (refs ++ fixed)
  ∧ heap run2.1 !! l = Some (refs ++ fixed ++ fixed)
  ∧ (run1.2 = Ok tt →
       run2.2 = Ok tt
       ∧ ∃ emitted, emitted ≡ₚ refs ++ fixed ++ fixed
           ∧ files run2.1 !! target_path models_type
             = Some (header models_type url2 +:+ body (refs ++ fixed ++ fixed) emitted)).
Proof.
  intros Hl fixed run1 run2.
  assert (heap run1.1 !! l = Some (refs ++ fixed)) as Hl1.
  { unfold run1. rewrite (write_imports_run l models_type url1 w refs Hl). cbv zeta.
    destruct (sorted _); apply lookup_insert_eq. }
  split; [done|].
  pose proof (write_imports_run l models_type url2 run1.1 _ Hl1) as Hrun2.
  cbv zeta in Hrun2. fold fixed in Hrun2. rewrite <- app_assoc in Hrun2.
  fold run2 in Hrun2. split.
  - rewrite Hrun2. destruct (sorted _); apply lookup_insert_eq.
  - intros Hok.
    assert (all_comparable (refs ++ fixed)) as Hall.
    { revert Hok. unfold run1.
      rewrite (write_imports_run l models_type url1 w refs Hl). cbv zeta.
      destruct (sorted (refs ++ fixed_references models_type))
        as [emitted|e] eqn:Hs; simpl; [|done].
      intros _. by apply sorted_Ok in Hs as (_ & _ & ?). }
    destruct (sorted_total (refs ++ fixed ++ fixed)) as [emitted Hs].
    { intros a b Ha Hb. apply Hall.
      - revert Ha. rewrite !elem_of_app. tauto.
      - revert Hb. rewrite !elem_of_app. tauto. }
    rewrite Hs in Hrun2. rewrite Hrun2. simpl. split; [done|].
    exists emitted. split; [|apply lookup_insert_eq].
    by apply sorted_Ok in Hs as (_ & ? & _).
Qed.

Lemma write_imports_mutates_argument_witness :
  let refs := [mkImportReference "hera.workflows.models.io.k8s.api.core.v1" "Pod" None] in
  let w := world_with_list refs in
  let fixed := fixed_references "workflows" in
  let run1 := write_imports 0 "workflows" "https://example.org/a.json" w in
  let run2 := write_imports 0 "workflows" "https://example.org/b.json" run1.1 in
  heap run1.1 !! 0 = Some (refs ++ fixed)
  ∧ heap run2.1 !! 0 = Some (refs ++ fixed ++ fixed)
  ∧ (run1.2 = Ok tt →
       run2.2 = Ok tt
       ∧ ∃ emitted, emitted ≡ₚ refs ++ fixed ++ fixed
           ∧ files run2.1 !! target_path "workflows"
             = Some (header "workflows" "https://example.org/b.json"
                     +:+ body (refs ++ fixed ++ fixed) emitted)).
Proof.
  intros refs w.
  apply (write_imports_mutates_argument 0 "workflows" "https://example.org/a.json"
           "https://example.org/b.json" w refs).
  reflexivity.
Defined.

(** C7. In a file generated from descriptors of import assembly, the export
    list is sorted, and its entries are, one for each emitted descriptor,
    the quoted alias of the descriptor if it has one and its quoted name
    otherwise. *)
Theorem export_list_sorted_complete (upper : string → string)
    (keys : list string) (root : string)
    (refs : list ImportReference) (l : loc) (models_type url : string) (w : World) :
  get_import_paths_from_refs upper keys root = Ok refs →
  heap w !! l = Some refs →
  let run := write_imports l models_type url w in
  run.2 = Ok tt
  ∧ ∃ emitted models_strs,
      files run.1 !! target_path models_type
      = Some (header models_type url
              +:+ concat_str (map rendered_import emitted)
              +:+ nl +:+ "__all__ = [" +:+ PyStr.join ", " models_strs +:+ "]" +:+ nl)
      ∧ emitted ≡ₚ refs ++ fixed_references models_type
      ∧ Sorted String.le models_strs
      ∧ models_strs ≡ₚ map (λ d, dq +:+ match alias d with
                                          | Some a => a
                                          | None => name d
                                          end +:+ dq) emitted.
Proof.
  intros Hrefs%get_import_paths_from_refs_assembled Hl run.
  destruct (sorted_assembled refs models_type Hrefs) as (emitted & Hs & Hp).
  unfold run. rewrite (write_imports_run l models_type url w refs Hl). cbv zeta.
  rewrite Hs. simpl. split; [done|].
  exists emitted, (sorted_str (map (λ ref, dq +:+ aliased_name ref +:+ dq)
                                 (refs ++ fixed_references models_type))).
  split; [apply lookup_insert_eq|]. split; [done|].
  split; [apply sorted_str_Sorted|].
  unfold sorted_str. rewrite merge_sort_Permutation, <- Hp.
  assert (Forall assembled emitted) as Hem.
  { rewrite Hp. apply Forall_app. split; [done | apply fixed_references_assembled]. }
  clear -Hem. induction Hem as [|d ds Hd _ IH]; simpl; [done|].
  rewrite (assembled_aliased_name d Hd). by rewrite IH.
Qed.

Lemma export_list_sorted_complete_witness :
  let keys := ["io.k8s.api.core.v1.Pod"; "io.k8s.api.core.v1.HTTPHeader"] in
  let refs := [mkImportReference "hera.workflows.models.io.k8s.api.core.v1" "Pod" None;
               mkImportReference "hera.workflows.models.io.k8s.api.core.v1" "HTTPHeader"
                 (Some "V1HTTPHeader")] in
  let run := write_imports 0 "workflows" "https://example.org/swagger.json"
               (world_with_list refs) in
  run.2 = Ok tt
  ∧ ∃ emitted models_strs,
      files run.1 !! target_path "workflows"
      = Some (header "workflows" "https://example.org/swagger.json"
              +:+ concat_str (map rendered_import emitted)
              +:+ nl +:+ "__all__ = [" +:+ PyStr.join ", " models_strs +:+ "]" +:+ nl)
      ∧ emitted ≡ₚ refs ++ fixed_references "workflows"
      ∧ Sorted String.le models_strs
      ∧ models_strs ≡ₚ map (λ d, dq +:+ match alias d with
                                          | Some a => a
                                          | None => name d
                                          end +:+ dq) emitted.
Proof.
  intros keys refs.
  apply (export_list_sorted_complete PyStr.upper_ascii
           keys "hera.workflows.models" refs 0 "workflows"
           "https://example.org/swagger.json" (world_with_list refs)).
  - reflexivity.
  - reflexivity.
Defined.

(** Import assembly of the same keys in another order gives the same
    descriptors in that other order. *)
Lemma get_import_paths_from_refs_Permutation {upper : string → string} keys1 keys2 root refs1 :
  keys1 ≡ₚ keys2 →
  get_import_paths_from_refs upper keys1 root = Ok refs1 →
  ∃ refs2, get_import_paths_from_refs upper keys2 root = Ok refs2 ∧ refs1 ≡ₚ refs2.
Proof.
  intros Hp H1%get_import_paths_from_refs_Ok.
  destruct (Permutation_Forall2 Hp H1) as (refs2 & Hp2 & H2).
  exists refs2. by rewrite get_import_paths_from_refs_Ok.
Qed.

(** C6. Two runs of generation on the descriptors assembled from the same
    set of filtered keys, for the same category, both succeed and write
    files that are equal byte for byte except for the spec URL: the text
    before the URL and the text after it are the same in both. *)
Theorem generation_deterministic (upper : string → string) (keys1 keys2 : list string)
    (root models_type url1 url2 : string) (refs1 refs2 : list ImportReference)
    (l1 l2 : loc) (w1 w2 : World) :
  NoDup keys1 → NoDup keys2 → (∀ k, k ∈ keys1 ↔ k ∈ keys2) →
  get_import_paths_from_refs upper keys1 root = Ok refs1 →
  get_import_paths_from_refs upper keys2 root = Ok refs2 →
  heap w1 !! l1 = Some refs1 →
  heap w2 !! l2 = Some refs2 →
  let run1 := write_imports l1 models_type url1 w1 in
  let run2 := write_imports l2 models_type url2 w2 in
  run1.2 = Ok tt ∧ run2.2 = Ok tt
  ∧ ∃ before after,
      files run1.1 !! target_path models_type = Some (before +:+ url1 +:+ after)
      ∧ files run2.1 !! target_path models_type = Some (before +:+ url2 +:+ after).
Proof.
  intros Hnd1 Hnd2 Hkeys Hrefs1 Hrefs2 Hl1 Hl2 run1 run2.
  pose proof (NoDup_Permutation keys1 keys2 Hnd1 Hnd2 Hkeys) as Hp.
  destruct (get_import_paths_from_refs_Permutation _ _ _ _ Hp Hrefs1)
    as (refs2' & Hrefs2' & Hprefs).
  assert (refs2' = refs2) as -> by congruence.
  assert (refs1 ++ fixed_references models_type
          ≡ₚ refs2 ++ fixed_references models_type) as Hall by by rewrite Hprefs.
  apply get_import_paths_from_refs_assembled in Hrefs1.
  destruct (sorted_assembled refs1 models_type Hrefs1) as (emitted & Hs1 & _).
  assert (sorted (refs2 ++ fixed_references models_type) = Ok emitted) as Hs2
    by by rewrite <- (sorted_Permutation _ _ Hall).
  unfold run1, run2.
  rewrite (write_imports_run l1 models_type url1 w1 refs1 Hl1),
          (write_imports_run l2 models_type url2 w2 refs2 Hl2). cbv zeta.
  rewrite Hs1, Hs2. simpl. split; [done|]. split; [done|].
  rewrite !lookup_insert_eq, <- (body_Permutation _ _ emitted Hall).
  exists (dq +:+ dq +:+ dq
          +:+ "[DO NOT EDIT MANUALLY] Auto-generated model classes." +:+ nl +:+ nl
          +:+ "Auto-generated by Hera via `make " +:+ models_type +:+ "-models`." +:+ nl
          +:+ "OpenAPI spec URL: "),
         (nl +:+ dq +:+ dq +:+ dq +:+ nl +:+ nl
          +:+ body (refs1 ++ fixed_references models_type) emitted).
  unfold header. by rewrite !append_assoc.
Qed.

Lemma generation_deterministic_witness :
  let keys1 := ["io.k8s.api.core.v1.Pod"; "io.k8s.api.core.v1.HTTPHeader"] in
  let keys2 := ["io.k8s.api.core.v1.HTTPHeader"; "io.k8s.api.core.v1.Pod"] in
  let pod := mkImportReference "hera.workflows.models.io.k8s.api.core.v1" "Pod" None in
  let hdr := mkImportReference "hera.workflows.models.io.k8s.api.core.v1" "HTTPHeader"
               (Some "V1HTTPHeader") in
  let run1 := write_imports 0 "workflows" "https://example.org/a.json"
                (world_with_list [pod; hdr]) in
  let run2 := write_imports 0 "workflows" "https://example.org/b.json"
                (world_with_list [hdr; pod]) in
  run1.2 = Ok tt ∧ run2.2 = Ok tt
  ∧ ∃ before after,
      files run1.1 !! target_path "workflows"
      = Some (before +:+ "https://example.org/a.json" +:+ after)
      ∧ files run2.1 !! target_path "workflows"
        = Some (before +:+ "https://example.org/b.json" +:+ after).
Proof.
  intros keys1 keys2 pod hdr.
  apply (generation_deterministic PyStr.upper_ascii
           keys1 keys2 "hera.workflows.models" "workflows"
           "https://example.org/a.json" "https://example.org/b.json"
           [pod; hdr] [hdr; pod] 0 0
           (world_with_list [pod; hdr]) (world_with_list [hdr; pod])).
  - by apply (bool_decide_unpack _).
  - by apply (bool_decide_unpack _).
  - intros k. unfold keys1, keys2. rewrite !elem_of_cons, !elem_of_nil. tauto.
  - reflexivity.
  - reflexivity.
  - reflexivity.
  - reflexivity.
Defined.

(** ** The script on a small specification *)

Example main_workflows_run :
  let url := "https://example.org/swagger.json" in
  let spec := [("swagger", JOther);
               ("definitions",
                JObject ["io.k8s.api.core.v1.Pod"; "io.argoproj.events.v1alpha1.Sensor";
                         "io.k8s.api.core.v1.Event"; "io.k8s.api.core.v1.HTTPHeader"])] in
  let w := mkWorld (λ _, mkResponse true 200 (Some spec)) [] ∅ ∅ in
  let run := main PyStr.upper_ascii remove_dups (mret tt)
      ["scripts/models.py"; url; "workflows"] w in
  let core := "hera.workflows.models.io.k8s.api.core.v1" in
  run.2 = Ok tt
  ∧ requested run.1 = [url]
  ∧ files run.1 !! "src/hera/workflows/models/__init__.py"
    = Some (header "workflows" url
            +:+ concat_str
                  (map (λ n, "from " +:+ core +:+ " import " +:+ n +:+ nl)
                     ["Effect"; "HTTPHeader as V1HTTPHeader"; "ImagePullPolicy";
                      "Operator"; "OperatorModel"; "Phase"; "Pod"; "Protocol"; "Scheme";
                      "TerminationMessagePolicy"; "Type"; "TypeModel"])
            +:+ nl +:+ "__all__ = ["
            +:+ PyStr.join ", "
                  (map (λ n, dq +:+ n +:+ dq)
                     ["Effect"; "ImagePullPolicy"; "Operator"; "OperatorModel"; "Phase";
                      "Pod"; "Protocol"; "Scheme"; "TerminationMessagePolicy"; "Type";
                      "TypeModel"; "V1HTTPHeader"])
            +:+ "]" +:+ nl).
Proof. vm_compute. by repeat split. Qed.

Example main_events_filtered :
  filter_refs_on_models_type remove_dups
    ["io.argoproj.events.v1.Event"; "io.k8s.api.core.v1.Event"; "io.k8s.api.core.v1.Pod"]
    "events"
  = ["io.argoproj.events.v1.Event"].
Proof. reflexivity. Qed.

Example main_retrieval_error :
  let w := mkWorld (λ _, mkResponse false 404 None) [] ∅ ∅ in
  main PyStr.upper_ascii remove_dups (mret tt)
      ["scripts/models.py"; "https://example.org/x"; "events"] w
  = (set_requested ["https://example.org/x"] w, Raise ValueError).
Proof. reflexivity. Qed.

(** ** Further properties of reference filtering *)

Lemma substring_of_trans a b c :
  PyStr.substring_of a b → PyStr.substring_of b c → PyStr.substring_of a c.
Proof.
  intros (p1 & q1 & ->) (p2 & q2 & ->).
  exists (p2 +:+ p1), (q1 +:+ q2). by rewrite !append_assoc.
Qed.

Lemma has_marker_two K :
  has_marker K ↔ PyStr.substring_of "event" K ∨ PyStr.substring_of "sensor" K.
Proof.
  unfold has_marker, inclusions. split.
  - intros (m & Hm & Hs). rewrite !elem_of_cons, elem_of_nil in Hm.
    destruct Hm as [->|[->|[->|[->|[]]]]]; auto; left.
    + eapply substring_of_trans; [|done]. by exists EmptyString, "s".
    + eapply substring_of_trans; [|done]. by exists EmptyString, "source".
  - intros [Hs|Hs]; [exists "event" | exists "sensor"]; split; try done;
      rewrite !elem_of_cons; auto.
Qed.

Lemma filter_loop_not_events refs models_type ms st :
  String.eqb models_type "events" = false →
  fold_left (filter_step refs models_type) ms st
  = fold_left (filter_step refs "workflows") ms st.
Proof.
  intros Hmt. revert st; induction ms as [|m ms IH]; intros [filtered evs]; [done|].
  simpl. rewrite Hmt. apply IH.
Qed.

Lemma filter_not_events list_set refs models_type :
  models_type ≠ "events" →
  filter_refs_on_models_type list_set refs models_type
  = filter_refs_on_models_type list_set refs "workflows".
Proof.
  intros Hmt%String.eqb_neq. unfold filter_refs_on_models_type.
  by rewrite filter_loop_not_events, Hmt.
Qed.

(** X1. Of the four markers only [event] and [sensor] matter: a key is in the
    [events] result exactly when it is a given key that contains [event] or
    [sensor]. *)
Theorem filter_events_two_markers list_set `{!ListSet list_set}
    (refs : list string) (K : string) :
  K ∈ filter_refs_on_models_type list_set refs "events"
  ↔ K ∈ refs ∧ (PyStr.substring_of "event" K ∨ PyStr.substring_of "sensor" K).
Proof. by rewrite filter_events_elem_of, has_marker_two. Qed.

Lemma filter_events_two_markers_witness :
  "io.argoproj.events.v1alpha1.EventSource"
    ∈ filter_refs_on_models_type remove_dups
        ["io.argoproj.events.v1alpha1.EventSource"; "io.k8s.api.core.v1.Pod"] "events"
  ↔ "io.argoproj.events.v1alpha1.EventSource"
      ∈ ["io.argoproj.events.v1alpha1.EventSource"; "io.k8s.api.core.v1.Pod"]
    ∧ (PyStr.substring_of "event" "io.argoproj.events.v1alpha1.EventSource"
       ∨ PyStr.substring_of "sensor" "io.argoproj.events.v1alpha1.EventSource").
Proof.
  exact (@filter_events_two_markers remove_dups remove_dups_ListSet
           ["io.argoproj.events.v1alpha1.EventSource"; "io.k8s.api.core.v1.Pod"]
           "io.argoproj.events.v1alpha1.EventSource").
Defined.

(** X2. The filter does not check its category: every category other than
    [events] is filtered as [workflows] is. *)
Theorem filter_unknown_category list_set (refs : list string) (models_type : string) :
  models_type ≠ "events" →
  filter_refs_on_models_type list_set refs models_type
  = filter_refs_on_models_type list_set refs "workflows".
Proof. apply filter_not_events. Qed.

Lemma filter_unknown_category_witness :
  filter_refs_on_models_type remove_dups
    ["io.k8s.api.core.v1.Pod"; "a.sensor.B"] "sensors"
  = filter_refs_on_models_type remove_dups
      ["io.k8s.api.core.v1.Pod"; "a.sensor.B"] "workflows".
Proof.
  apply (filter_unknown_category remove_dups
           ["io.k8s.api.core.v1.Pod"; "a.sensor.B"] "sensors").
  discriminate.
Defined.

(** X3. The filtered keys depend on which keys are given, not on their order
    or number of occurrences, and more keys give more filtered keys: when
    every key of [refs] is a key of [refs'], every filtered key of [refs] is
    a filtered key of [refs'], for any category. *)
Theorem filter_monotone list_set1 list_set2
    `{!ListSet list_set1} `{!ListSet list_set2}
    (refs refs' : list string) (models_type : string) :
  (∀ k, k ∈ refs → k ∈ refs') →
  ∀ K, K ∈ filter_refs_on_models_type list_set1 refs models_type
       → K ∈ filter_refs_on_models_type list_set2 refs' models_type.
Proof.
  intros Hsub K. destruct (decide (models_type = "events")) as [->|Hmt].
  - rewrite !filter_events_elem_of by assumption. intros [? ?]. auto.
  - rewrite !(filter_not_events _ _ models_type Hmt).
    rewrite !filter_workflows_elem_of by assumption. intros (? & ? & ?). auto.
Qed.

Lemma filter_monotone_witness :
  "io.k8s.api.core.v1.Pod"
    ∈ filter_refs_on_models_type (λ xs, reverse (remove_dups xs))
        ["a.events.B"; "io.k8s.api.core.v1.Pod"] "workflows".
Proof.
  apply (@filter_monotone remove_dups (λ xs, reverse (remove_dups xs))
           remove_dups_ListSet rev_remove_dups_ListSet
           ["io.k8s.api.core.v1.Pod"; "io.k8s.api.core.v1.Pod"]
           ["a.events.B"; "io.k8s.api.core.v1.Pod"] "workflows").
  - intros k. rewrite !elem_of_cons, !elem_of_nil. tauto.
  - apply list_elem_of_here.
Defined.

(** ** Further properties of import assembly *)

Lemma split_no_sep sep s seg :
  seg ∈ PyStr.split sep s → PyStr.contains (String sep EmptyString) seg = false.
Proof.
  revert seg; induction s as [|c s IH]; intros seg; simpl.
  - intros ->%list_elem_of_singleton. done.
  - destruct (Ascii.eqb_spec c sep) as [->|Hne].
    + intros [->|Hin]%elem_of_cons; [done | by apply IH].
    + destruct (PyStr.split sep s) as [|seg0 segs] eqn:Hs.
      * intros ->%list_elem_of_singleton. simpl.
        by rewrite (proj2 (Ascii.eqb_neq sep c)) by done.
      * intros [->|Hin]%elem_of_cons.
        -- simpl. rewrite (proj2 (Ascii.eqb_neq sep c)) by done. simpl.
           apply IH. by left.
        -- apply IH. by right.
Qed.

Lemma join_snoc sep init x :
  init ≠ [] → PyStr.join sep (init ++ [x]) = PyStr.join sep init +:+ sep +:+ x.
Proof.
  induction init as [|y init IH]; [done|]. intros _.
  destruct init as [|z init]; [done|].
  change (PyStr.join sep ((y :: z :: init) ++ [x]))
    with (y +:+ sep +:+ PyStr.join sep ((z :: init) ++ [x])).
  rewrite IH by done.
  change (PyStr.join sep (y :: z :: init))
    with (y +:+ sep +:+ PyStr.join sep (z :: init)).
  by rewrite !append_assoc.
Qed.

(** A key is its segments joined by dots. *)
Lemma key_of_segments key init symbol :
  PyStr.split "." key = init ++ [symbol] →
  key = if decide (init = []) then symbol
        else PyStr.join "." init +:+ "." +:+ symbol.
Proof.
  intros Hs. rewrite <- (join_split "." key) at 1. rewrite Hs.
  destruct (decide (init = [])) as [->|Hne]; [done|]. by apply join_snoc.
Qed.

Lemma import_reference_of_Raise {upper : string → string} root key e :
  import_reference_of upper root key = Raise e
  ↔ e = IndexError ∧ key ∈ ["HTTPHeader"; "LogEntry"].
Proof.
  split.
  - destruct (split_snoc "." key) as (init & symbol & Hs).
    destruct (decide (symbol ∈ ["HTTPHeader"; "LogEntry"])) as [Hc|Hn].
    + destruct init as [|seg init _] using rev_ind.
      * pose proof (key_of_segments key [] symbol Hs) as Hk. simpl in Hk. subst key.
        revert Hs. simpl. intros Hs. unfold import_reference_of. rewrite Hs. simpl.
        rewrite bool_decide_eq_true_2 by done. simpl. by intros [= <-].
      * rewrite <- app_assoc in Hs. simpl in Hs.
        by rewrite (import_reference_of_colliding root key init seg symbol Hs Hc).
    + by rewrite (import_reference_of_plain root key init symbol Hs Hn).
  - intros [-> Hk]. rewrite !elem_of_cons, elem_of_nil in Hk.
    by destruct Hk as [->|[->|[]]].
Qed.

Lemma mapM_outcome_Raise {A B} (f : A → outcome B) l :
  (∃ e, mapM f l = Raise e) ↔ ∃ x e, x ∈ l ∧ f x = Raise e.
Proof.
  induction l as [|x l IH]; simpl.
  - split; [by intros [e ?] | by intros (x & e & ?%elem_of_nil & _)].
  - destruct (f x) as [y|e] eqn:Hx; simpl.
    + destruct (mapM f l) as [ys|e] eqn:Hl; simpl.
      * split; [by intros [e ?]|]. intros (x' & e & [->|Hin]%elem_of_cons & Hx').
        -- congruence.
        -- destruct (proj2 IH) as [e' ?]; [by exists x', e | done].
      * split; [|by eexists]. intros _.
        destruct (proj1 IH) as (x' & e' & Hin & Hx'); [by eexists|].
        exists x', e'. split; [by right | done].
    + split; [|by eexists]. intros _. exists x, e. split; [by left | done].
Qed.

Lemma mapM_outcome_Raise_inv {A B} (f : A → outcome B) l e :
  mapM f l = Raise e → ∃ x, x ∈ l ∧ f x = Raise e.
Proof.
  induction l as [|x l IH]; simpl; [done|].
  destruct (f x) as [y|e'] eqn:Hx; simpl.
  - destruct (mapM f l) as [ys|e'] eqn:Hl; simpl; [done|].
    intros [= ->]. destruct (IH eq_refl) as (x' & Hin & Hx').
    exists x'. split; [by right | done].
  - intros [= ->]. exists x. split; [by left | done].
Qed.

Lemma get_import_paths_from_refs_mapM {upper : string → string} keys root :
  get_import_paths_from_refs upper keys root = mapM (import_reference_of upper root) keys.
Proof.
  unfold get_import_paths_from_refs. rewrite get_import_paths_loop_spec.
  by destruct (mapM _ keys).
Qed.

Lemma get_import_paths_from_refs_Raise {upper : string → string} keys root :
  (∃ e, get_import_paths_from_refs upper keys root = Raise e)
  ↔ "HTTPHeader" ∈ keys ∨ "LogEntry" ∈ keys.
Proof.
  rewrite get_import_paths_from_refs_mapM, mapM_outcome_Raise. split.
  - intros (k & e & Hin & [_ Hk]%import_reference_of_Raise).
    rewrite !elem_of_cons, elem_of_nil in Hk. destruct Hk as [->|[->|[]]]; auto.
  - intros [Hin|Hin]; eexists _, IndexError; (split; [exact Hin|]);
      apply import_reference_of_Raise; split; try done;
      rewrite !elem_of_cons; auto.
Qed.

Lemma get_import_paths_from_refs_IndexError {upper : string → string} keys root e :
  get_import_paths_from_refs upper keys root = Raise e → e = IndexError.
Proof.
  rewrite get_import_paths_from_refs_mapM.
  intros (k & _ & [-> _]%import_reference_of_Raise)%mapM_outcome_Raise_inv. done.
Qed.

(** X4. Import assembly raises exactly when one of the keys is the bare name
    [HTTPHeader] or [LogEntry], and what it raises is [IndexError]; on all
    other key lists it returns descriptors. *)
Theorem import_assembly_fails_iff (upper : string → string)
    (keys : list string) (root : string) :
  ((∃ e, get_import_paths_from_refs upper keys root = Raise e)
   ↔ "HTTPHeader" ∈ keys ∨ "LogEntry" ∈ keys)
  ∧ (∀ e, get_import_paths_from_refs upper keys root = Raise e → e = IndexError).
Proof.
  split; [apply get_import_paths_from_refs_Raise|].
  intros e. apply get_import_paths_from_refs_IndexError.
Qed.

(** X5. Import assembly gives one descriptor for each key, in the order of
    the keys.  The name of the descriptor holds no dot, and the key can be
    read back from the descriptor: for a key with a dot, the path, a dot and
    the name spell the root path, a dot and the key; for a key without a dot
    the path is the root path and a dot, and the name is the key. *)
Theorem import_assembly_round_trip (upper : string → string)
    (keys : list string) (root : string)
    (refs : list ImportReference) :
  get_import_paths_from_refs upper keys root = Ok refs →
  Forall2 (λ key d,
    ¬ PyStr.substring_of "." (name d)
    ∧ if PyStr.contains "." key
      then path d +:+ "." +:+ name d = root +:+ "." +:+ key
      else path d = root +:+ "." ∧ name d = key) keys refs.
Proof.
  rewrite get_import_paths_from_refs_Ok. intros Hall.
  eapply Forall2_impl; [exact Hall|]. clear Hall. intros key d Hd. cbv beta in Hd.
  destruct (split_snoc "." key) as (init & symbol & Hs).
  assert (PyStr.contains "." symbol = false) as Hsym.
  { apply (split_no_sep "." key). rewrite Hs, elem_of_app. right. by left. }
  assert (path d = root +:+ "." +:+ PyStr.join "." init ∧ name d = symbol) as [Hp Hn].
  { destruct (decide (symbol ∈ ["HTTPHeader"; "LogEntry"])) as [Hc|Hnc].
    - destruct init as [|seg init _] using rev_ind.
      + exfalso. pose proof (key_of_segments key [] symbol Hs) as Hk. simpl in Hk.
        subst key. pose proof
          (proj2 (import_reference_of_Raise (upper:=upper) root symbol IndexError)
          (conj eq_refl Hc)) as Hr. congruence.
      + rewrite <- app_assoc in Hs. pose proof Hs as Hs'. simpl in Hs'.
        rewrite (import_reference_of_colliding root key init seg symbol Hs' Hc) in Hd.
        by injection Hd as <-.
    - rewrite (import_reference_of_plain root key init symbol Hs Hnc) in Hd.
      by injection Hd as <-. }
  rewrite Hn. split.
  { rewrite <- contains_spec. by rewrite Hsym. }
  pose proof (key_of_segments key init symbol Hs) as Hk.
  destruct (decide (init = [])) as [->|Hne].
  - subst key. rewrite Hsym. by rewrite Hp.
  - assert (PyStr.contains "." key = true) as ->.
    { apply contains_spec. exists (PyStr.join "." init), symbol. by rewrite Hk. }
    by rewrite Hp, Hk, !append_assoc.
Qed.

Lemma import_assembly_round_trip_witness :
  Forall2 (λ key d,
    ¬ PyStr.substring_of "." (name d)
    ∧ if PyStr.contains "." key
      then path d +:+ "." +:+ name d = "hera.workflows.models" +:+ "." +:+ key
      else path d = "hera.workflows.models" +:+ "." ∧ name d = key)
    ["io.k8s.api.core.v1.Pod"; "Pod"]
    [mkImportReference "hera.workflows.models.io.k8s.api.core.v1" "Pod" None;
     mkImportReference "hera.workflows.models." "Pod" None].
Proof.
  apply (import_assembly_round_trip PyStr.upper_ascii ["io.k8s.api.core.v1.Pod"; "Pod"]
           "hera.workflows.models").
  reflexivity.
Defined.

Lemma import_assembly_events_total_aux {upper : string → string}
    list_set `{!ListSet list_set} refs root :
  ∃ imports,
    get_import_paths_from_refs upper
      (filter_refs_on_models_type list_set refs "events") root = Ok imports.
Proof.
  destruct (get_import_paths_from_refs upper _ root) as [imports|e] eqn:Hg; [by eexists|].
  exfalso.
  destruct (proj1 (get_import_paths_from_refs_Raise _ root) (ex_intro _ e Hg))
    as [Hin|Hin]; apply filter_events_elem_of in Hin as [_ Hm]; try assumption;
    apply has_marker_existsb in Hm; vm_compute in Hm; discriminate.
Qed.

(** X6. On the keys the [events] filter lets through import assembly never
    raises: a bare [HTTPHeader] or [LogEntry] carries no marker. *)
Theorem import_assembly_events_total (upper : string → string) list_set `{!ListSet list_set}
    (refs : list string) (root : string) :
  ∃ imports,
    get_import_paths_from_refs upper
      (filter_refs_on_models_type list_set refs "events") root = Ok imports.
Proof. by apply import_assembly_events_total_aux. Qed.

Lemma import_assembly_events_total_witness :
  ∃ imports,
    get_import_paths_from_refs PyStr.upper_ascii
      (filter_refs_on_models_type remove_dups
         ["HTTPHeader"; "io.argoproj.events.v1alpha1.Sensor"] "events")
      "hera.events.models" = Ok imports.
Proof.
  exact (@import_assembly_events_total PyStr.upper_ascii remove_dups remove_dups_ListSet
           ["HTTPHeader"; "io.argoproj.events.v1alpha1.Sensor"] "hera.events.models").
Defined.

(** ** Further properties of the ordering of descriptors *)

Global Instance comparable_dec a b : Decision (comparable a b).
Proof.
  unfold comparable.
  destruct (decide (key2 a = key2 b)) as [Hk|?]; [|by left].
  destruct (alias a), (alias b).
  - left. intros _. by split.
  - right. intros Hc. destruct (Hc Hk) as [_ H2]. by specialize (H2 eq_refl).
  - right. intros Hc. destruct (Hc Hk) as [H1 _]. by specialize (H1 eq_refl).
  - by left.
Defined.

Lemma not_comparable_inv a b :
  ¬ comparable a b →
  key2 a = key2 b
  ∧ ((alias a = None ∧ alias b ≠ None) ∨ (alias b = None ∧ alias a ≠ None)).
Proof.
  unfold comparable. intros Hn.
  destruct (decide (key2 a = key2 b)) as [Hk|Hk]; [|by destruct Hn].
  split; [done|].
  destruct (alias a), (alias b); try (by destruct Hn); auto.
Qed.

Lemma not_all_comparable_inv l :
  ¬ all_comparable l →
  ∃ a b, a ∈ l ∧ b ∈ l ∧ path a = path b ∧ name a = name b
         ∧ alias a = None ∧ alias b ≠ None.
Proof.
  intros Hn.
  assert (¬ Forall (λ a, Forall (comparable a) l) l) as Hf.
  { intros Hf. apply Hn. intros a b Ha Hb.
    rewrite Forall_forall in Hf. specialize (Hf a Ha).
    rewrite Forall_forall in Hf. by apply Hf. }
  apply not_Forall_Exists in Hf; [|apply _].
  apply Exists_exists in Hf as (a & Ha & Hfa). simpl in Hfa.
  apply not_Forall_Exists in Hfa; [|apply _].
  apply Exists_exists in Hfa as (b & Hb & Hab). simpl in Hab.
  apply not_comparable_inv in Hab as [Hk [[? ?]|[? ?]]];
    unfold key2 in Hk; injection Hk as Hp Hnm.
  - by exists a, b.
  - by exists b, a.
Qed.

(** X7. [sorted] on descriptors either returns the descriptors in ascending
    order of path, then name, then alias, none added or lost, or raises
    [TypeError]; it raises exactly when two of the descriptors have the same
    path and name and one of them has an alias while the other has none. *)
Theorem sorted_outcome (l : list ImportReference) :
  (∃ s, sorted l = Ok s ∧ StronglySorted ref_le s ∧ s ≡ₚ l
        ∧ ∀ a b, a ∈ l → b ∈ l → path a = path b → name a = name b →
                 (alias a = None ↔ alias b = None))
  ∨ (sorted l = Raise TypeError
     ∧ ∃ a b, a ∈ l ∧ b ∈ l ∧ path a = path b ∧ name a = name b
              ∧ alias a = None ∧ alias b ≠ None).
Proof.
  destruct (sorted l) as [s|e] eqn:Hs.
  - left. exists s. apply sorted_Ok in Hs as (Hss & Hp & Hall).
    split; [done|]. split; [done|]. split; [done|].
    intros a b Ha Hb Hpath Hname. apply (Hall a b Ha Hb).
    unfold key2. by rewrite Hpath, Hname.
  - right. apply sorted_Raise in Hs as [-> Hn]. split; [done|].
    by apply not_all_comparable_inv.
Qed.

(** X8. The outcome of [sorted], a list or an exception, is the same for
    every arrangement of the same descriptors. *)
Theorem sorted_ignores_order (l l' : list ImportReference) :
  l ≡ₚ l' → sorted l = sorted l'.
Proof. apply sorted_Permutation. Qed.

Lemma sorted_ignores_order_witness :
  sorted [mkImportReference "p" "B" None; mkImportReference "p" "A" (Some "X");
          mkImportReference "o" "C" None]
  = sorted [mkImportReference "o" "C" None; mkImportReference "p" "B" None;
            mkImportReference "p" "A" (Some "X")].
Proof.
  apply (sorted_ignores_order
           [mkImportReference "p" "B" None; mkImportReference "p" "A" (Some "X");
            mkImportReference "o" "C" None]
           [mkImportReference "o" "C" None; mkImportReference "p" "B" None;
            mkImportReference "p" "A" (Some "X")]).
  change ([mkImportReference "p" "B" None; mkImportReference "p" "A" (Some "X")]
            ++ [mkImportReference "o" "C" None]
          ≡ₚ [mkImportReference "o" "C" None]
             ++ [mkImportReference "p" "B" None; mkImportReference "p" "A" (Some "X")]).
  apply Permutation_app_comm.
Defined.

(** ** Further properties of generation *)

(** X9. [write_imports] changes the list it is given and the target file,
    and nothing else: every other file, every other list object, the URLs
    retrieved and the remote side are as before, whether it returns or
    raises. *)
Theorem write_imports_frame (l : loc) (models_type url : string) (w : World)
    (refs : list ImportReference) :
  heap w !! l = Some refs →
  let run := write_imports l models_type url w in
  remote run.1 = remote w
  ∧ requested run.1 = requested w
  ∧ (∀ p, p ≠ target_path models_type → files run.1 !! p = files w !! p)
  ∧ (∀ l', l' ≠ l → heap run.1 !! l' = heap w !! l').
Proof.
  intros Hl run. unfold run.
  rewrite (write_imports_run l models_type url w refs Hl). cbv zeta.
  destruct (sorted _); simpl; (split; [done|]); (split; [done|]);
    split; intros x Hx; by rewrite lookup_insert_ne.
Qed.

Lemma write_imports_frame_witness :
  let refs := [mkImportReference "hera.workflows.models.io.k8s.api.core.v1" "Pod" None] in
  let run := write_imports 0 "workflows" "https://example.org/a.json"
               (world_with_list refs) in
  remote run.1 = remote (world_with_list refs)
  ∧ requested run.1 = requested (world_with_list refs)
  ∧ (∀ p, p ≠ target_path "workflows" →
          files run.1 !! p = files (world_with_list refs) !! p)
  ∧ (∀ l', l' ≠ 0 → heap run.1 !! l' = heap (world_with_list refs) !! l').
Proof.
  intros refs.
  apply (write_imports_frame 0 "workflows" "https://example.org/a.json"
           (world_with_list refs) refs).
  reflexivity.
Defined.

(** X10. When two descriptors of the extended list have the same path and
    name and only one of them has an alias, [write_imports] raises
    [TypeError]; by then the target file has been replaced by the header
    alone and the list has been extended. *)
Theorem write_imports_type_error (l : loc) (models_type url : string) (w : World)
    (refs : list ImportReference) (a b : ImportReference) :
  heap w !! l = Some refs →
  a ∈ refs ++ fixed_references models_type →
  b ∈ refs ++ fixed_references models_type →
  path a = path b → name a = name b → alias a = None → alias b ≠ None →
  let run := write_imports l models_type url w in
  run.2 = Raise TypeError
  ∧ files run.1 !! target_path models_type = Some (header models_type url)
  ∧ heap run.1 !! l = Some (refs ++ fixed_references models_type).
Proof.
  intros Hl Ha Hb Hp Hn Haa Hab run. unfold run.
  rewrite (write_imports_run l models_type url w refs Hl). cbv zeta.
  destruct (sorted _) as [s|e] eqn:Hs.
  - exfalso. apply sorted_Ok in Hs as (_ & _ & Hall).
    destruct (Hall a b Ha Hb) as [Hc _]; [unfold key2; by rewrite Hp, Hn|]. auto.
  - apply sorted_Raise in Hs as [-> _]. simpl.
    split; [done|]. split; apply lookup_insert_eq.
Qed.

Lemma write_imports_type_error_witness :
  let refs := [mkImportReference "hera.workflows.models.io.k8s.api.core.v1" "Type"
                 (Some "V1Type")] in
  let run := write_imports 0 "workflows" "https://example.org/a.json"
               (world_with_list refs) in
  run.2 = Raise TypeError
  ∧ files run.1 !! target_path "workflows"
    = Some (header "workflows" "https://example.org/a.json")
  ∧ heap run.1 !! 0 = Some (refs ++ fixed_references "workflows").
Proof.
  intros refs.
  apply (write_imports_type_error 0 "workflows" "https://example.org/a.json"
           (world_with_list refs) refs
           (mkImportReference "hera.workflows.models.io.k8s.api.core.v1" "Type" None)
           (mkImportReference "hera.workflows.models.io.k8s.api.core.v1" "Type"
              (Some "V1Type"))).
  - reflexivity.
  - by apply (bool_decide_unpack _).
  - by apply (bool_decide_unpack _).
  - reflexivity.
  - reflexivity.
  - reflexivity.
  - discriminate.
Defined.

(** X11. When all descriptors of the extended list can be compared,
    [write_imports] returns, and the target file is the header followed by
    one import line for each descriptor of the extended list, in ascending
    order of path, name and alias, and the export list; equal descriptors
    are not merged, so there are as many import lines as given descriptors
    plus ten, plus six more for [events].  What the file held before does
    not matter. *)
Theorem write_imports_import_lines (l : loc) (models_type url : string) (w : World)
    (refs : list ImportReference) :
  heap w !! l = Some refs →
  all_comparable (refs ++ fixed_references models_type) →
  let run := write_imports l models_type url w in
  run.2 = Ok tt
  ∧ ∃ emitted,
      files run.1 !! target_path models_type
      = Some (header models_type url
              +:+ concat_str (map rendered_import emitted)
              +:+ nl +:+ "__all__ = ["
              +:+ PyStr.join ", "
                    (sorted_str (map (λ ref, dq +:+ aliased_name ref +:+ dq)
                                   (refs ++ fixed_references models_type)))
              +:+ "]" +:+ nl)
      ∧ StronglySorted ref_le emitted
      ∧ emitted ≡ₚ refs ++ fixed_references models_type
      ∧ length emitted
        = length refs + (if String.eqb models_type "events" then 16 else 10).
Proof.
  intros Hl Hall run. unfold run.
  rewrite (write_imports_run l models_type url w refs Hl). cbv zeta.
  destruct (sorted_total _ Hall) as [emitted Hs]. rewrite Hs. simpl.
  split; [done|]. exists emitted.
  apply sorted_Ok in Hs as (Hss & Hp & _).
  split; [by rewrite lookup_insert_eq|]. split; [done|]. split; [done|].
  rewrite Hp, length_app. f_equal. unfold fixed_references.
  by destruct (String.eqb models_type "events").
Qed.

Lemma write_imports_import_lines_witness :
  let refs := [mkImportReference "hera.events.models.io.k8s.api.core.v1" "Type" None] in
  let run := write_imports 0 "events" "https://example.org/a.json"
               (world_with_list refs) in
  run.2 = Ok tt
  ∧ ∃ emitted,
      files run.1 !! target_path "events"
      = Some (header "events" "https://example.org/a.json"
              +:+ concat_str (map rendered_import emitted)
              +:+ nl +:+ "__all__ = ["
              +:+ PyStr.join ", "
                    (sorted_str (map (λ ref, dq +:+ aliased_name ref +:+ dq)
                                   (refs ++ fixed_references "events")))
              +:+ "]" +:+ nl)
      ∧ StronglySorted ref_le emitted
      ∧ emitted ≡ₚ refs ++ fixed_references "events"
      ∧ length emitted = length refs + 16.
Proof.
  intros refs.
  apply (write_imports_import_lines 0 "events" "https://example.org/a.json"
           (world_with_list refs) refs).
  - reflexivity.
  - apply assembled_all_comparable, Forall_app.
    split; [|apply fixed_references_assembled].
    apply Forall_cons. split; [|constructor].
    split; simpl; [|done]. split; [|done]. intros _.
    rewrite !elem_of_cons, elem_of_nil. intros [?|[?|[]]]; discriminate.
Defined.

(** ** The command line and the extraction of the definitions *)

(** X12. [get_models_type] returns the second argument exactly when the
    argument vector holds the script name and two arguments and the second
    is [workflows] or [events]; [get_openapi_spec_url] returns the first
    argument exactly when the vector holds the script name and two
    arguments, whatever the second is.  When they raise, they raise
    [AssertionError]. *)
Theorem argv_accessors (argv : list string) :
  (∀ mt, get_models_type argv = Ok mt
         ↔ ∃ prog url, argv = [prog; url; mt] ∧ (mt = "workflows" ∨ mt = "events"))
  ∧ (∀ url, get_openapi_spec_url argv = Ok url ↔ ∃ prog mt, argv = [prog; url; mt])
  ∧ (∀ e, get_models_type argv = Raise e → e = AssertionError)
  ∧ (∀ e, get_openapi_spec_url argv = Raise e → e = AssertionError).
Proof.
  unfold get_models_type, get_openapi_spec_url.
  destruct argv as [|a [|b [|c [|d rest]]]]; simpl;
    try (split; [|split; [|split]];
         [ intros mt; split; [done | by intros (? & ? & ? & _)]
         | intros url; split; [done | by intros (? & ? & ?)]
         | by intros e [= <-]
         | by intros e [= <-] ]).
  split; [|split; [|split]].
  - intros mt. destruct (decide (c ∈ model_types)) as [Hc|Hc].
    + rewrite bool_decide_eq_true_2 by done. simpl. split.
      * intros [= <-]. exists a, b. split; [done|].
        unfold model_types in Hc. rewrite !elem_of_cons, elem_of_nil in Hc. tauto.
      * by intros (? & ? & [= <- <- <-] & _).
    + rewrite bool_decide_eq_false_2 by done. simpl. split; [done|].
      intros (? & ? & [= <- <- <-] & Hmt). destruct Hc.
      unfold model_types. rewrite !elem_of_cons. tauto.
  - intros url. split.
    + intros [= <-]. by exists a, c.
    + by intros (? & ? & [= <- <- <-]).
  - intros e. destruct (bool_decide (c ∈ model_types)); simpl; [done|].
    by intros [= <-].
  - done.
Qed.

Lemma dict_get_Some d k v : dict_get d k = Some v → (k, v) ∈ d.
Proof.
  induction d as [|[k' v'] d IH]; simpl; [done|].
  destruct (String.eqb_spec k' k) as [->|Hne].
  - intros [= <-]. by left.
  - intros Hd. right. by apply IH.
Qed.

Lemma dict_get_is_Some d k : k ∈ map fst d → is_Some (dict_get d k).
Proof.
  induction d as [|[k' v'] d IH]; simpl; [by intros ?%elem_of_nil|].
  destruct (String.eqb_spec k' k) as [->|Hne]; [by eexists|].
  intros [?|Hin]%elem_of_cons; [done | by apply IH].
Qed.

Lemma get_openapi_definitions_Ok spec v :
  dict_get spec "definitions" = Some v → get_openapi_definitions spec = Ok v.
Proof.
  intros Hd. unfold get_openapi_definitions, k_definitions.
  rewrite bool_decide_eq_true_2, Hd; [done|].
  apply dict_get_Some in Hd. apply list_elem_of_fmap. by exists ("definitions", v).
Qed.

(** X13. [get_openapi_definitions] returns what the document holds under
    [definitions]; when that key is missing it raises [AssertionError], and
    it raises nothing else: the lookup after the assertion never fails. *)
Theorem get_openapi_definitions_outcome (spec : list (string * json)) :
  (∀ v, get_openapi_definitions spec = Ok v → ("definitions", v) ∈ spec)
  ∧ (∀ e, get_openapi_definitions spec = Raise e →
          e = AssertionError ∧ "definitions" ∉ map fst spec)
  ∧ ("definitions" ∈ map fst spec → ∃ v, get_openapi_definitions spec = Ok v).
Proof.
  unfold get_openapi_definitions, k_definitions.
  destruct (decide ("definitions" ∈ map fst spec)) as [Hin|Hin].
  - rewrite bool_decide_eq_true_2 by done. simpl.
    destruct (dict_get_is_Some _ _ Hin) as [v Hv]. rewrite Hv. simpl.
    split; [|split].
    + intros v' [= <-]. by apply dict_get_Some.
    + done.
    + intros _. by exists v.
  - rewrite bool_decide_eq_false_2 by done. simpl.
    split; [done|]. split; [by intros e [= <-]|done].
Qed.

(** ** The script from end to end *)

Lemma main_after_arguments {upper : string → string}
    list_set (ensure_init : M unit) prog url models_type w :
  models_type ∈ ["workflows"; "events"] →
  main upper list_set ensure_init [prog; url; models_type] w
  = (openapi_spec ← fetch_openapi_spec url;
     definitions ← lift (get_openapi_definitions openapi_spec);
     refs ← lift (get_refs_from_openapi_definitions definitions);
     imports ← lift (get_import_paths_from_refs upper
                       (filter_refs_on_models_type list_set refs models_type)
                       (assemble_root_path_from_models_type models_type));
     imports ← list_new imports;
     write_imports imports models_type url ;;
     ensure_init) w.
Proof.
  intros Hmt. unfold main.
  erewrite bind_Ok; cycle 1.
  { unfold lift, get_models_type. simpl. change ["workflows"; "events"] with model_types in Hmt.
    by rewrite bool_decide_eq_true_2. }
  erewrite bind_Ok; [|reflexivity]. done.
Qed.

(** X14. With well-formed arguments, when the response is not a success or
    its body is not JSON, the script raises [ValueError] after that one
    retrieval: no file is written, no list is created, [ensure_init] does
    not run. *)
Theorem main_failed_retrieval (upper : string → string) list_set (ensure_init : M unit)
    (prog url models_type : string) (w : World) :
  models_type ∈ ["workflows"; "events"] →
  ok (remote w url) = false ∨ json_body (remote w url) = None →
  main upper list_set ensure_init [prog; url; models_type] w
  = (set_requested (requested w ++ [url]) w, Raise ValueError).
Proof.
  intros Hmt Hresp. rewrite main_after_arguments by done.
  apply bind_Raise. unfold fetch_openapi_spec.
  destruct (ok (remote w url)); [|done].
  destruct Hresp as [?|Hb]; [done|]. by rewrite Hb.
Qed.

Lemma main_failed_retrieval_witness :
  let w := mkWorld (λ _, mkResponse false 503 None) ["earlier"] ∅ ∅ in
  main PyStr.upper_ascii remove_dups (mret tt)
      ["scripts/models.py"; "https://example.org/x"; "workflows"] w
  = (set_requested (requested w ++ ["https://example.org/x"]) w, Raise ValueError).
Proof.
  intros w.
  apply (main_failed_retrieval PyStr.upper_ascii remove_dups (mret tt) "scripts/models.py"
           "https://example.org/x" "workflows" w).
  - rewrite !elem_of_cons. auto.
  - left. reflexivity.
Defined.

(** X15. With well-formed arguments and a successful response whose document
    has no [definitions] entry, the script raises [AssertionError] after the
    one retrieval, and nothing else has happened. *)
Theorem main_schema_error (upper : string → string) list_set (ensure_init : M unit)
    (prog url models_type : string) (w : World) (spec : list (string * json)) :
  models_type ∈ ["workflows"; "events"] →
  ok (remote w url) = true →
  json_body (remote w url) = Some spec →
  "definitions" ∉ map fst spec →
  main upper list_set ensure_init [prog; url; models_type] w
  = (set_requested (requested w ++ [url]) w, Raise AssertionError).
Proof.
  intros Hmt Hok Hbody Hdef. rewrite main_after_arguments by done.
  erewrite bind_Ok; [|unfold fetch_openapi_spec; by rewrite Hok, Hbody].
  apply bind_Raise. unfold lift, get_openapi_definitions, k_definitions.
  by rewrite bool_decide_eq_false_2.
Qed.

Lemma main_schema_error_witness :
  let w := mkWorld (λ _, mkResponse true 200 (Some [("swagger", JOther)])) [] ∅ ∅ in
  main PyStr.upper_ascii remove_dups (mret tt)
      ["scripts/models.py"; "https://example.org/x"; "events"] w
  = (set_requested (requested w ++ ["https://example.org/x"]) w, Raise AssertionError).
Proof.
  intros w.
  apply (main_schema_error PyStr.upper_ascii remove_dups (mret tt) "scripts/models.py"
           "https://example.org/x" "events" w [("swagger", JOther)]).
  - rewrite !elem_of_cons. auto.
  - reflexivity.
  - reflexivity.
  - simpl. rewrite !elem_of_cons, elem_of_nil. intros [?|[]]. discriminate.
Defined.

(** X16. For category [workflows], when the definitions of the document have
    the bare key [HTTPHeader] or [LogEntry], the script raises [IndexError]
    after the retrieval, before anything is written: the key passes the
    filter and has no second-to-last segment for the alias. *)
Theorem main_bare_colliding_key (upper : string → string)
    list_set `{!ListSet list_set} (ensure_init : M unit)
    (prog url : string) (w : World) (spec : list (string * json)) (keys : list string) :
  ok (remote w url) = true →
  json_body (remote w url) = Some spec →
  dict_get spec "definitions" = Some (JObject keys) →
  "HTTPHeader" ∈ keys ∨ "LogEntry" ∈ keys →
  main upper list_set ensure_init [prog; url; "workflows"] w
  = (set_requested (requested w ++ [url]) w, Raise IndexError).
Proof.
  intros Hok Hbody Hdef Hkeys.
  rewrite main_after_arguments by (rewrite !elem_of_cons; auto).
  erewrite bind_Ok; [|unfold fetch_openapi_spec; by rewrite Hok, Hbody].
  erewrite bind_Ok; [|unfold lift; by rewrite (get_openapi_definitions_Ok _ _ Hdef)].
  erewrite bind_Ok; [|reflexivity].
  apply bind_Raise. unfold lift. f_equal.
  destruct (get_import_paths_from_refs upper _ _) as [imports|e] eqn:Hg.
  - exfalso.
    assert (∃ e, get_import_paths_from_refs upper
                   (filter_refs_on_models_type list_set keys "workflows")
                   (assemble_root_path_from_models_type "workflows") = Raise e)
      as [e He]; [|congruence].
    apply get_import_paths_from_refs_Raise.
    destruct Hkeys as [Hin|Hin]; [left|right];
      (apply filter_workflows_elem_of; [assumption|]);
      (split; [done|]); (split; [rewrite has_marker_existsb; by vm_compute|]);
      unfold exclusions; rewrite !elem_of_cons, elem_of_nil;
      intros [?|[?|[?|[]]]]; discriminate.
  - by rewrite (get_import_paths_from_refs_IndexError _ _ _ Hg).
Qed.

Lemma main_bare_colliding_key_witness :
  let spec := [("definitions", JObject ["io.k8s.api.core.v1.Pod"; "LogEntry"])] in
  let w := mkWorld (λ _, mkResponse true 200 (Some spec)) [] ∅ ∅ in
  main PyStr.upper_ascii remove_dups (mret tt)
      ["scripts/models.py"; "https://example.org/x"; "workflows"] w
  = (set_requested (requested w ++ ["https://example.org/x"]) w, Raise IndexError).
Proof.
  intros spec w.
  apply (@main_bare_colliding_key PyStr.upper_ascii remove_dups remove_dups_ListSet (mret tt)
           "scripts/models.py" "https://example.org/x" w spec
           ["io.k8s.api.core.v1.Pod"; "LogEntry"]).
  - reflexivity.
  - reflexivity.
  - reflexivity.
  - right. rewrite !elem_of_cons. auto.
Defined.

(** Filtered keys are given keys, for every category. *)
Lemma filter_monotone_aux list_set `{!ListSet list_set} refs models_type K :
  K ∈ filter_refs_on_models_type list_set refs models_type → K ∈ refs.
Proof.
  destruct (decide (models_type = "events")) as [->|Hmt].
  - rewrite filter_events_elem_of by assumption. by intros [? _].
  - rewrite (filter_not_events _ _ models_type Hmt).
    rewrite filter_workflows_elem_of by assumption. by intros [? _].
Qed.

(** X17. With well-formed arguments, a successful response and a document
    whose [definitions] entry is an object, the script gets to
    [ensure_init], unless the category is [workflows] and a definition key
    is the bare [HTTPHeader] or [LogEntry].  By then it has retrieved the
    URL once, created one list, holding the assembled and the fixed
    descriptors, and written the target file: the header, the sorted import
    lines and the export list. *)
Theorem main_success (upper : string → string)
    list_set `{!ListSet list_set} (ensure_init : M unit)
    (prog url models_type : string) (w : World) (spec : list (string * json))
    (keys : list string) :
  models_type ∈ ["workflows"; "events"] →
  ok (remote w url) = true →
  json_body (remote w url) = Some spec →
  dict_get spec "definitions" = Some (JObject keys) →
  models_type = "events" ∨ (("HTTPHeader" ∉ keys) ∧ ("LogEntry" ∉ keys)) →
  ∃ imports emitted,
    get_import_paths_from_refs upper
      (filter_refs_on_models_type list_set keys models_type)
      ("hera." +:+ models_type +:+ ".models") = Ok imports
    ∧ sorted (imports ++ fixed_references models_type) = Ok emitted
    ∧ main upper list_set ensure_init [prog; url; models_type] w
      = ensure_init
          (mkWorld (remote w) (requested w ++ [url])
             (<[target_path models_type :=
                  header models_type url
                  +:+ body (imports ++ fixed_references models_type) emitted]>
                (files w))
             (<[fresh (dom (heap w)) := imports ++ fixed_references models_type]>
                (heap w))).
Proof.
  intros Hmt Hok Hbody Hdef Hkeys.
  assert (∃ imports, get_import_paths_from_refs upper
            (filter_refs_on_models_type list_set keys models_type)
            (assemble_root_path_from_models_type models_type) = Ok imports)
    as [imports Himports].
  { destruct Hkeys as [->|[Hh Hl]]; [by apply import_assembly_events_total_aux|].
    destruct (get_import_paths_from_refs upper _ _) as [imports|e] eqn:Hg; [by eexists|].
    exfalso.
    destruct (proj1 (get_import_paths_from_refs_Raise _ _) (ex_intro _ e Hg))
      as [Hin|Hin]; [apply Hh | apply Hl];
      exact (filter_monotone_aux list_set keys models_type _ Hin). }
  exists imports.
  destruct (sorted_assembled imports models_type
              (get_import_paths_from_refs_assembled _ _ _ Himports))
    as (emitted & Hs & _).
  exists emitted. split; [done|]. split; [done|].
  rewrite main_after_arguments by done.
  erewrite bind_Ok; [|unfold fetch_openapi_spec; by rewrite Hok, Hbody].
  erewrite bind_Ok; [|unfold lift; by rewrite (get_openapi_definitions_Ok _ _ Hdef)].
  erewrite bind_Ok; [|reflexivity].
  erewrite bind_Ok; [|unfold lift; by rewrite Himports].
  erewrite bind_Ok; [|reflexivity].
  erewrite bind_Ok; cycle 1.
  { rewrite (write_imports_run _ models_type url _ imports) by apply lookup_insert_eq.
    cbv zeta. rewrite Hs. reflexivity. }
  unfold set_heap, set_requested. cbn [remote requested files heap].
  by rewrite insert_insert_eq.
Qed.

Lemma main_success_witness :
  let spec := [("definitions",
                JObject ["io.k8s.api.core.v1.Pod"; "io.argoproj.events.v1alpha1.Sensor"])] in
  let w := mkWorld (λ _, mkResponse true 200 (Some spec)) [] ∅ ∅ in
  let url := "https://example.org/swagger.json" in
  ∃ imports emitted,
    get_import_paths_from_refs PyStr.upper_ascii
      (filter_refs_on_models_type remove_dups
         ["io.k8s.api.core.v1.Pod"; "io.argoproj.events.v1alpha1.Sensor"] "workflows")
      ("hera." +:+ "workflows" +:+ ".models") = Ok imports
    ∧ sorted (imports ++ fixed_references "workflows") = Ok emitted
    ∧ main PyStr.upper_ascii remove_dups (mret tt) ["scripts/models.py"; url; "workflows"] w
      = (mret tt : M unit)
          (mkWorld (remote w) (requested w ++ [url])
             (<[target_path "workflows" :=
                  header "workflows" url
                  +:+ body (imports ++ fixed_references "workflows") emitted]>
                (files w))
             (<[fresh (dom (heap w)) := imports ++ fixed_references "workflows"]>
                (heap w))).
Proof.
  intros spec w url.
  apply (@main_success PyStr.upper_ascii remove_dups remove_dups_ListSet (mret tt)
           "scripts/models.py" url "workflows" w spec
           ["io.k8s.api.core.v1.Pod"; "io.argoproj.events.v1alpha1.Sensor"]).
  - rewrite !elem_of_cons. auto.
  - reflexivity.
  - reflexivity.
  - reflexivity.
  - right. rewrite !elem_of_cons, !elem_of_nil.
    split; intros [?|[?|[]]]; discriminate.
Defined.

(** ** Package markers *)

Lemma touch_app ps qs m : touch (ps ++ qs) m = touch qs (touch ps m).
Proof. apply fold_left_app. Qed.

Lemma touch_lookup ps m p :
  touch ps m !! p = if decide (p ∈ ps) then Some EmptyString else m !! p.
Proof.
  revert m; induction ps as [|q ps IH]; intros m.
  - destruct (decide (p ∈ [])) as [?%elem_of_nil|]; done.
  - change (touch ps (<[q:=EmptyString]> m) !! p
            = if decide (p ∈ q :: ps) then Some EmptyString else m !! p).
    rewrite IH.
    destruct (decide (p ∈ ps)) as [Hin|Hin], (decide (p ∈ q :: ps)) as [Hin'|Hin'];
      try done.
    + destruct Hin'. by right.
    + apply elem_of_cons in Hin' as [->|?]; [apply lookup_insert_eq | done].
    + apply lookup_insert_ne. intros ->. apply Hin'. by left.
Qed.

Lemma set_files_id w : set_files (files w) w = w.
Proof. by destruct w. Qed.

Lemma for_each_touch {A} (g : A → list string) (body : A → M unit) xs :
  (∀ x w, body x w = (set_files (touch (g x) (files w)) w, Ok tt)) →
  ∀ w, for_each xs body w = (set_files (touch (flat_map g xs) (files w)) w, Ok tt).
Proof.
  intros Hbody. induction xs as [|x xs IH]; intros w; simpl.
  - by rewrite set_files_id.
  - erewrite bind_Ok; [|apply Hbody]. rewrite IH, touch_app. done.
Qed.

Lemma ensure_init_run list_set walk w :
  ensure_init list_set walk w
  = (set_files (touch (marker_paths list_set walk) (files w)) w, Ok tt).
Proof.
  unfold ensure_init, marker_paths. apply for_each_touch.
  intros models_type w1. apply for_each_touch.
  intros [root fs] w2. simpl.
  destruct (PyStr.contains "__pycache__" root); [by destruct w2|].
  destruct (bool_decide ("__init__.py" ∈ fs)); simpl; [by destruct w2|].
  erewrite bind_Ok; [|reflexivity].
  unfold file_write, set_files, touch. cbn [remote requested files heap fold_left].
  by rewrite alter_insert_eq.
Qed.

Lemma marker_paths_elem_of list_set `{!ListSet list_set} walk p :
  p ∈ marker_paths list_set walk
  ↔ ∃ root, needs_marker walk root ∧ p = root +:+ "/__init__.py".
Proof.
  unfold marker_paths, needs_marker.
  rewrite list_elem_of_In, in_flat_map. split.
  - intros (mt & Hmt%list_elem_of_In & Hp). rewrite list_set_elem_of in Hmt.
    apply in_flat_map in Hp as ([root fs] & Hentry%list_elem_of_In & Hp).
    simpl in Hp.
    destruct (PyStr.contains "__pycache__" root) eqn:Hc; [done|].
    destruct (decide ("__init__.py" ∈ fs)) as [Hin|Hin].
    + by rewrite bool_decide_eq_true_2 in Hp.
    + rewrite bool_decide_eq_false_2 in Hp by done. simpl in Hp.
      destruct Hp as [<-|[]]. exists root. split; [|done].
      exists mt, fs. split; [done|]. split; [done|]. split; [|done].
      rewrite <- contains_spec. by rewrite Hc.
  - intros (root & (mt & fs & Hmt & Hentry & Hc & Hin) & ->).
    exists mt. split; [by apply list_elem_of_In, list_set_elem_of|].
    apply in_flat_map. exists (root, fs). split; [by apply list_elem_of_In|].
    simpl. rewrite <- contains_spec in Hc.
    destruct (PyStr.contains "__pycache__" root); [done|].
    rewrite bool_decide_eq_false_2 by done. by left.
Qed.

(** X18. [ensure_init] always returns, and changes files only: in every
    directory listed below the models directory of [workflows] or [events]
    that is not a cache directory and was listed without an [__init__.py],
    the file [__init__.py] is created empty; every other path, in
    particular everything in a directory whose path contains
    [__pycache__], is as it was. *)
Theorem ensure_init_effect list_set `{!ListSet list_set}
    (walk : string → list (string * list string)) (w : World) :
  let run := ensure_init list_set walk w in
  run.2 = Ok tt
  ∧ remote run.1 = remote w ∧ requested run.1 = requested w ∧ heap run.1 = heap w
  ∧ (∀ root, needs_marker walk root →
             files run.1 !! (root +:+ "/__init__.py") = Some EmptyString)
  ∧ (∀ p, (¬ ∃ root, needs_marker walk root ∧ p = root +:+ "/__init__.py") →
          files run.1 !! p = files w !! p).
Proof.
  intros run. unfold run. rewrite ensure_init_run. simpl.
  split; [done|]. split; [done|]. split; [done|]. split; [done|]. split.
  - intros root Hroot. rewrite touch_lookup.
    destruct (decide _) as [?|Hn]; [done|]. destruct Hn.
    apply marker_paths_elem_of; [assumption|]. by exists root.
  - intros p Hp. rewrite touch_lookup.
    destruct (decide _) as [Hin|?]; [|done]. destruct Hp.
    by apply marker_paths_elem_of in Hin.
Qed.

Lemma ensure_init_effect_witness :
  let w := mkWorld (λ _, mkResponse false 404 None) [] example_files ∅ in
  let run := ensure_init remove_dups example_walk w in
  run.2 = Ok tt
  ∧ remote run.1 = remote w ∧ requested run.1 = requested w ∧ heap run.1 = heap w
  ∧ (∀ root, needs_marker example_walk root →
             files run.1 !! (root +:+ "/__init__.py") = Some EmptyString)
  ∧ (∀ p, (¬ ∃ root, needs_marker example_walk root ∧ p = root +:+ "/__init__.py") →
          files run.1 !! p = files w !! p).
Proof.
  intros w.
  exact (@ensure_init_effect remove_dups remove_dups_ListSet example_walk w).
Defined.

(** X19. When the listing agrees with the files of the world on which
    directories hold an [__init__.py], [ensure_init] overwrites nothing:
    every file keeps its content, in particular the file [write_imports]
    has generated; and afterwards every listed directory that is not a
    cache directory holds an [__init__.py]. *)
Theorem ensure_init_keeps_files list_set `{!ListSet list_set}
    (walk : string → list (string * list string)) (w : World) :
  (∀ models_type root fs,
     models_type ∈ model_types →
     (root, fs) ∈ walk ("src/hera/" +:+ models_type +:+ "/models") →
     ("__init__.py" ∈ fs ↔ is_Some (files w !! (root +:+ "/__init__.py")))) →
  let run := ensure_init list_set walk w in
  (∀ p c, files w !! p = Some c → files run.1 !! p = Some c)
  ∧ (∀ models_type root fs,
       models_type ∈ model_types →
       (root, fs) ∈ walk ("src/hera/" +:+ models_type +:+ "/models") →
       ¬ PyStr.substring_of "__pycache__" root →
       is_Some (files run.1 !! (root +:+ "/__init__.py"))).
Proof.
  intros Hlisting run. unfold run. rewrite ensure_init_run. simpl. split.
  - intros p c Hp. rewrite touch_lookup.
    destruct (decide (p ∈ marker_paths list_set walk)) as [Hin|Hin]; [|done].
    exfalso. apply marker_paths_elem_of in Hin; [|assumption].
    destruct Hin as (root & (mt & fs & Hmt & Hentry & _ & Hnin) & ->).
    apply Hnin, (Hlisting mt root fs Hmt Hentry). by eexists.
  - intros mt root fs Hmt Hentry Hc. rewrite touch_lookup.
    destruct (decide (_ ∈ marker_paths list_set walk)) as [Hin|Hin]; [by eexists|].
    apply (Hlisting mt root fs Hmt Hentry).
    destruct (decide ("__init__.py" ∈ fs)) as [?|Hnin]; [done|].
    destruct Hin. apply marker_paths_elem_of; [assumption|].
    exists root. split; [|done]. by exists mt, fs.
Qed.

Lemma example_walk_listing models_type root fs :
  models_type ∈ model_types →
  (root, fs) ∈ example_walk ("src/hera/" +:+ models_type +:+ "/models") →
  ("__init__.py" ∈ fs ↔ is_Some (example_files !! (root +:+ "/__init__.py"))).
Proof.
  unfold model_types. rewrite !elem_of_cons, elem_of_nil.
  intros [->|[->|[]]]; vm_compute example_walk.
  - rewrite !elem_of_cons, elem_of_nil.
    intros [[= -> ->]|[[= -> ->]|[[= -> ->]|[]]]].
    + split; [intros _; by eexists | intros _; by left].
    + split; [by intros ?%elem_of_nil | by intros [? ?]].
    + split; [by intros ?%elem_of_nil | by intros [? ?]].
  - by intros ?%elem_of_nil.
Qed.

Lemma ensure_init_keeps_files_witness :
  let w := mkWorld (λ _, mkResponse false 404 None) [] example_files ∅ in
  let run := ensure_init remove_dups example_walk w in
  (∀ p c, files w !! p = Some c → files run.1 !! p = Some c)
  ∧ (∀ models_type root fs,
       models_type ∈ model_types →
       (root, fs) ∈ example_walk ("src/hera/" +:+ models_type +:+ "/models") →
       ¬ PyStr.substring_of "__pycache__" root →
       is_Some (files run.1 !! (root +:+ "/__init__.py"))).
Proof.
  intros w.
  apply (@ensure_init_keeps_files remove_dups remove_dups_ListSet example_walk w).
  apply example_walk_listing.
Defined.

(** ** Import lines and exported names *)

(** X20. The name an import line binds is the name the export list gives
    for the descriptor: the line is [from <path> import <name>] when
    [aliased_name] is the name, and [from <path> import <name> as <alias>]
    when it is the alias; an alias that is the empty string counts as no
    alias in both. *)
Theorem rendered_import_binds_aliased_name (d : ImportReference) :
  (rendered_import d = "from " +:+ path d +:+ " import " +:+ name d +:+ nl
   ∧ aliased_name d = name d
   ∧ (alias d = None ∨ alias d = Some EmptyString))
  ∨ (∃ a, alias d = Some a ∧ a ≠ EmptyString
          ∧ rendered_import d
            = "from " +:+ path d +:+ " import " +:+ name d +:+ " as " +:+ a +:+ nl
          ∧ aliased_name d = a).
Proof.
  unfold rendered_import, aliased_name.
  destruct (alias d) as [[|c a]|]; simpl.
  - left. auto.
  - right. exists (String c a). by rewrite !append_assoc.
  - left. auto.
Qed.

(** ** The first character of a [str] *)

Lemma take_drop_bytes n s : PyStr.take_bytes n s +:+ PyStr.drop_bytes n s = s.
Proof.
  revert s; induction n as [|n IH]; intros [|c s]; simpl; try done.
  by rewrite append_cons, IH.
Qed.

(** A [str] is its first character followed by the rest. *)
Lemma first_char_split s : PyStr.first_char s +:+ PyStr.after_first_char s = s.
Proof. destruct s as [|c s]; [done|]. apply take_drop_bytes. Qed.

(** An ASCII first character is one byte. *)
Lemma first_char_ascii c s :
  nat_of_ascii c < 128 →
  PyStr.first_char (String c s) = String c EmptyString
  ∧ PyStr.after_first_char (String c s) = s.
Proof.
  intros Hc. unfold PyStr.first_char, PyStr.after_first_char, PyStr.char_width.
  by rewrite (proj2 (Nat.ltb_lt _ _) Hc).
Qed.

(** A key whose second-to-last segment starts with a character outside
    ASCII: the whole character is handed to [str.upper]. *)
Example import_assembly_non_ascii upper root :
  get_import_paths_from_refs upper ["é.HTTPHeader"] root
  = Ok [mkImportReference (root +:+ "." +:+ "é") "HTTPHeader"
          (Some (upper "é" +:+ "HTTPHeader"))].
Proof. reflexivity. Qed.
